(** * A shallow embedding of the gtsfm multi-view optimisation core

    The repository snapshot holds the Hydra configuration of the scene
    optimiser ([src/unnamed/part_001]), the conda environment
    ([src/unnamed/part_000]) and an exploration notebook
    ([src/notebooks/explore_hilti.ipynb]).  The configuration fixes the
    parameters below; the stage implementations themselves are described by
    the specification, and the definitions that stand for them say so in
    their doc comments ("Modelled from the spec"). *)

From Stdlib Require Import QArith Qabs Qminmax Lia Strings.Byte.
From stdpp Require Import base list gmap.

(* ------------------------------------------------------------------ *)
(** ** Configuration values (src/unnamed/part_001) *)

Module Config.

(** [two_view_estimator.inlier_support_processor]: lines 36-39. *)
Definition min_num_inliers_est_model : nat := 15.
Definition min_inlier_ratio_est_model : Q := 1 # 10.

(** [multiview_optimizer.data_association_module]: lines 57-66. *)
Definition min_track_len : nat := 2.
Definition reproj_error_threshold : Q := 100.
Definition max_num_hypotheses : nat := 100.

(** [multiview_optimizer.bundle_adjustment_module]: lines 69-73. *)
Definition output_reproj_error_thresh : Q := 3.

(** [view_graph_estimator.edge_error_aggregation_criterion]: line 47. *)
Inductive EdgeErrorAggregationCriterion :=
| MEDIAN_EDGE_ERROR.

Definition edge_error_aggregation_criterion : EdgeErrorAggregationCriterion :=
  MEDIAN_EDGE_ERROR.

End Config.

(* ------------------------------------------------------------------ *)
(** ** Two-view estimator: the inlier-support post-filter *)

Module InlierSupport.

Section Processor.

Context {Rot3 Unit3 : Type}.

(** The verifier's estimate for one image pair: relative rotation,
    translation direction, verified inlier correspondences (pairs of
    keypoint indices) and the inlier ratio of the estimated model. *)
Record two_view_estimate := {
  i2Ri1 : Rot3;
  i2Ui1 : Unit3;
  v_corr_idxs : list (nat * nat);
  inlier_ratio_est_model : Q
}.

(** A Relative Pose Edge, or the verification-failure signal. *)
Inductive two_view_result :=
| RelativePoseEdge (e : two_view_estimate)
| VerificationFailure.

Record InlierSupportProcessor := {
  min_num_inliers : nat;
  min_inlier_ratio : Q
}.

(** Modelled from the spec: [InlierSupportProcessor.run_inlier_support]
    (class [gtsfm.two_view_estimator.InlierSupportProcessor], configured
    in [part_001] but not in the snapshot).  "A post-filter rejects edges with inlier count or inlier
    ratio below configured minimums". *)
Definition run_inlier_support (p : InlierSupportProcessor)
    (est : two_view_estimate) : two_view_result :=
  if Nat.ltb (length (v_corr_idxs est)) (min_num_inliers p)
     || negb (Qle_bool (min_inlier_ratio p) (inlier_ratio_est_model est))
  then VerificationFailure
  else RelativePoseEdge est.

End Processor.

(** The processor as configured in [part_001]. *)
Definition configured : InlierSupportProcessor :=
  {| min_num_inliers := Config.min_num_inliers_est_model;
     min_inlier_ratio := Config.min_inlier_ratio_est_model |}.

End InlierSupport.

(* ------------------------------------------------------------------ *)
(** ** Data association: tracks from pairwise correspondences *)

Module DataAssoc.

(** An observation is a (camera index, keypoint index) pair. *)
Abbreviation obs := (nat * nat)%type.

(** Verified correspondences per image pair: [((i1, i2), [(k1, k2); ...])]. *)
Abbreviation corr_dict := (list ((nat * nat) * list (nat * nat)))%type.

(** One matched keypoint pair becomes an edge between two observations. *)
Definition obs_edges (corr : corr_dict) : list (obs * obs) :=
  flat_map (fun '((i1, i2), ks) => map (fun '(k1, k2) => ((i1, k1), (i2, k2))) ks)
    corr.

Definition touches (a b : obs) (t : list obs) : bool :=
  bool_decide (a ∈ t) || bool_decide (b ∈ t).

(** Modelled from the spec: the disjoint-set union of
    [SfmTrack2d.generate_tracks_from_pairwise_matches] (not in the
    snapshot).  "union correspondences transitively into tracks (two
    observations belong to the same track if connected by a chain of
    matched correspondences)": merging an edge replaces every class
    holding one of its ends by their union. *)
Definition union_edge (ts : list (list obs)) (e : obs * obs) : list (list obs) :=
  let '(a, b) := e in
  remove_dups (a :: b :: concat (filter (touches a b) ts))
    :: filter (fun t => negb (touches a b t)) ts.

Definition union_tracks (corr : corr_dict) : list (list obs) :=
  fold_left union_edge (obs_edges corr) [].

Definition has_unique_cameras (t : list obs) : bool :=
  bool_decide (NoDup (map fst t)).

(** Modelled from the spec: [DataAssociation] (configured in [part_001],
    lines 57-59, not in the snapshot).  After the union, "discard tracks
    shorter than the minimum length"; the spec's track invariant ("every
    observation in a track references a distinct camera") is enforced by
    discarding the tracks that would break it. *)
Definition generate_tracks (min_track_len : nat) (corr : corr_dict)
    : list (list obs) :=
  filter (fun t => Nat.leb min_track_len (length t) && has_unique_cameras t)
    (union_tracks corr).

End DataAssoc.

(* ------------------------------------------------------------------ *)
(** ** View-graph estimator: triplet cycle consistency *)

Module ViewGraph.

(** Insertion sort on rationals, and the median as [np.median] takes it
    (mean of the two middle values on an even count). *)
Fixpoint insertQ (x : Q) (l : list Q) : list Q :=
  match l with
  | [] => [x]
  | y :: l' => if Qle_bool x y then x :: l else y :: insertQ x l'
  end.

Fixpoint sortQ (l : list Q) : list Q :=
  match l with
  | [] => []
  | x :: l' => insertQ x (sortQ l')
  end.

Definition median (l : list Q) : Q :=
  let s := sortQ l in
  let n := length s in
  if Nat.even n
  then ((nth (n / 2 - 1) s 0 + nth (n / 2) s 0) / 2)%Q
  else nth (n / 2) s 0%Q.

Definition aggregate (c : Config.EdgeErrorAggregationCriterion) (l : list Q) : Q :=
  match c with
  | Config.MEDIAN_EDGE_ERROR => median l
  end.

Section Estimator.

Context {Rot3 : Type}.

(** The inverse of a relative rotation: the edge (i, j) read as (j, i). *)
Variable inv : Rot3 -> Rot3.

(** Angular deviation from the identity of the cycle (a,b), (b,c), (a,c). *)
Variable cycle_error : Rot3 -> Rot3 -> Rot3 -> Q.

Abbreviation edge := ((nat * nat) * Rot3)%type.

Fixpoint lookup_edge (k : nat * nat) (es : list edge) : option Rot3 :=
  match es with
  | [] => None
  | (k', r) :: es' => if decide (k = k') then Some r else lookup_edge k es'
  end.

(** The view graph is undirected: the relative rotation for (i, j) is the
    edge (i, j), or the inverse of the edge (j, i). *)
Definition lookup_undirected (es : list edge) (i j : nat) : option Rot3 :=
  match lookup_edge (i, j) es with
  | Some r => Some r
  | None => match lookup_edge (j, i) es with
            | Some r => Some (inv r)
            | None => None
            end
  end.

(** The cameras touched by an edge. *)
Definition cameras (es : list edge) : list nat :=
  remove_dups (flat_map (fun '((i, j), _) => [i; j]) es).

(** Every triplet of cameras a < b < c with all three pairwise edges
    present (in either orientation), once, with its cycle error. *)
Definition triplets (es : list edge) : list ((nat * nat * nat) * Q) :=
  let cams := cameras es in
  flat_map (fun a =>
    flat_map (fun b =>
      flat_map (fun c =>
        if decide (a < b < c) then
          match lookup_undirected es a b, lookup_undirected es b c,
                lookup_undirected es a c with
          | Some rab, Some rbc, Some rac => [((a, b, c), cycle_error rab rbc rac)]
          | _, _, _ => []
          end
        else []) cams) cams) cams.

(** An edge, in either orientation, is one of the triplet's three sides. *)
Definition in_triplet (k : nat * nat) (t : nat * nat * nat) : bool :=
  let '(a, b, c) := t in
  bool_decide (k ∈ [(a, b); (b, a); (b, c); (c, b); (a, c); (c, a)]).

(** Errors of all triplets an edge participates in. *)
Definition edge_errors (es : list edge) (k : nat * nat) : list Q :=
  map snd (filter (fun t => in_triplet k t.1) (triplets es)).

Record CycleConsistentRotationViewGraphEstimator := {
  edge_error_aggregation_criterion : Config.EdgeErrorAggregationCriterion;
  error_threshold : Q
}.

Definition keep_edge (v : CycleConsistentRotationViewGraphEstimator)
    (es : list edge) (e : edge) : bool :=
  match edge_errors es e.1 with
  | [] => true
  | errs => Qle_bool (aggregate (edge_error_aggregation_criterion v) errs)
                     (error_threshold v)
  end.

(** Modelled from the spec: [CycleConsistentRotationViewGraphEstimator]
    (configured in [part_001], lines 45-47, not in the snapshot).
    "Aggregate each edge's errors across all triplets it participates in
    using a robust statistic (median, configurable) and drop edges whose
    aggregated error exceeds a threshold"; "edges that appear in zero
    triplets ... are passed through unfiltered". *)
Definition filter_edges (v : CycleConsistentRotationViewGraphEstimator)
    (es : list edge) : list edge :=
  filter (keep_edge v es) es.

End Estimator.

(** Two cameras share an edge of the view graph, in either orientation. *)
Definition adjacent {Rot3 : Type} (es : list ((nat * nat) * Rot3)) (i j : nat) : Prop :=
  exists r, ((i, j), r) ∈ es \/ ((j, i), r) ∈ es.

End ViewGraph.

(* ------------------------------------------------------------------ *)
(** ** Triangulation: robust sampling over the observing cameras *)

Module Triangulation.

Inductive TriangulationSamplingMode :=
| RANSAC_SAMPLE_UNIFORM.

Record TriangulationOptions := {
  reproj_error_threshold : Q;
  mode : TriangulationSamplingMode;
  max_num_hypotheses : nat
}.

(** [triangulation_options] as configured in [part_001], lines 60-66. *)
Definition configured : TriangulationOptions :=
  {| reproj_error_threshold := Config.reproj_error_threshold;
     mode := RANSAC_SAMPLE_UNIFORM;
     max_num_hypotheses := Config.max_num_hypotheses |}.

Inductive invalid_reason :=
| Degenerate
| ExceedsReprojThreshold.

Inductive triangulation_result {Point : Type} :=
| ValidTrack (p : Point) (err : Q)
| InvalidTrack (why : invalid_reason).
Arguments triangulation_result : clear implicits.

Section Sampling.

Context {Obs Point : Type}.

(** Linear or optimal triangulation from a subset of the observations;
    [None] when the geometry is degenerate (near-parallel rays or a point
    behind a camera). *)
Variable triangulate : list Obs -> option Point.
Variable reproj_error : Point -> Obs -> Q.

(** Uniform draw of two distinct positions among [n] observations from
    two random numbers. *)
Definition sample_pair (n : nat) (r : nat * nat) : list nat :=
  let i := r.1 mod n in
  let j := (i + 1 + r.2 mod (n - 1)) mod n in
  [i; j].

Definition hypothesis_subsets (o : TriangulationOptions) (n : nat)
    (rs : list (nat * nat)) : list (list nat) :=
  map (sample_pair n) (take (max_num_hypotheses o) rs).

Definition select (track : list Obs) (idx : list nat) : list Obs :=
  omap (fun i => track !! i) idx.

(** Mean reprojection error of a point over all observations. *)
Definition track_error (track : list Obs) (p : Point) : Q :=
  (fold_right Qplus 0 (map (reproj_error p) track) / inject_Z (Z.of_nat (length track)))%Q.

Definition evaluate (track : list Obs) (idx : list nat) : option (Point * Q) :=
  match triangulate (select track idx) with
  | Some p => Some (p, track_error track p)
  | None => None
  end.

Definition better (h : option (Point * Q)) (best : option (Point * Q))
    : option (Point * Q) :=
  match h, best with
  | None, _ => best
  | Some _, None => h
  | Some (_, e), Some (_, e') => if Qle_bool e' e then best else h
  end.

Definition best_hypothesis (track : list Obs) (subsets : list (list nat))
    : option (Point * Q) :=
  fold_left (fun best idx => better (evaluate track idx) best) subsets None.

(** Modelled from the spec: [Point3dInitializer.triangulate] (module
    [gtsfm.data_association.point3d_initializer], configured in
    [part_001] but not in the snapshot).  Random subsets of size 2 are
    drawn from the random stream [rs], at most [max_num_hypotheses] of
    them; each is scored by the reprojection error over all observations;
    the best is kept, and the track is rejected when every hypothesis is
    degenerate or the best error exceeds the threshold. *)
Definition triangulate_track (o : TriangulationOptions) (track : list Obs)
    (rs : list (nat * nat)) : triangulation_result Point :=
  match best_hypothesis track (hypothesis_subsets o (length track) rs) with
  | None => InvalidTrack Degenerate
  | Some (p, e) =>
      if Qle_bool e (reproj_error_threshold o) then ValidTrack p e
      else InvalidTrack ExceedsReprojThreshold
  end.

End Sampling.

End Triangulation.

(* ------------------------------------------------------------------ *)
(** ** Bundle adjustment: the post-optimisation track filter *)

Module BundleAdjustment.

Record BundleAdjustmentOptimizer := {
  output_reproj_error_thresh : Q;
  robust_measurement_noise : bool;
  shared_calib : bool
}.

(** [bundle_adjustment_module] as configured in [part_001], lines 69-73. *)
Definition configured : BundleAdjustmentOptimizer :=
  {| output_reproj_error_thresh := Config.output_reproj_error_thresh;
     robust_measurement_noise := true;
     shared_calib := false |}.

Section Filter.

Context {Track : Type}.
(** Reprojection error of a track after the optimiser has converged. *)
Variable final_reproj_error : Track -> Q.

(** Modelled from the spec: the post-filter of
    [BundleAdjustmentOptimizer.run] (not in the snapshot).  "After
    convergence, drop any track whose final reprojection error exceeds an
    output threshold". *)
Definition filter_tracks (b : BundleAdjustmentOptimizer) (tracks : list Track)
    : list Track :=
  filter (fun t => Qle_bool (final_reproj_error t) (output_reproj_error_thresh b))
    tracks.

End Filter.

End BundleAdjustment.

(* ------------------------------------------------------------------ *)
(** ** Cache wrappers of the detector-descriptor and the matcher *)

Module Cacher.

Section Cache.

Context {Input Output K : Type} `{Countable K}.

(** The wrapped computation, and the stable identity of its input (image
    content plus configuration of the wrapped object). *)
Variable compute : Input -> Output.
Variable cache_key : Input -> K.

(** Modelled from the spec: [DetectorDescriptorCacher] and
    [MatcherCacher] (configured in [part_001], lines 13-23, not in the
    snapshot).  A hit returns the stored result; a miss recomputes and
    writes the result under the input's key.  The store is shared by all
    calls, so it is threaded through them. *)
Definition cached_run (cache : gmap K Output) (x : Input) : Output * gmap K Output :=
  match cache !! cache_key x with
  | Some y => (y, cache)
  | None => let y := compute x in (y, <[cache_key x := y]> cache)
  end.

(** Every stored result is the result of the wrapped computation on an
    input with that key. *)
Definition cache_consistent (cache : gmap K Output) : Prop :=
  map_Forall (fun k y => exists x, cache_key x = k /\ y = compute x) cache.

Fixpoint run_all (cache : gmap K Output) (xs : list Input) : list Output * gmap K Output :=
  match xs with
  | [] => ([], cache)
  | x :: xs' =>
      let '(y, cache1) := cached_run cache x in
      let '(ys, cache2) := run_all cache1 xs' in
      (y :: ys, cache2)
  end.

End Cache.

#[global] Instance byte_eq_dec : EqDecision Byte.byte := Byte.byte_eq_dec.
#[global] Instance byte_countable : Countable Byte.byte :=
  inj_countable Byte.to_N Byte.of_N Byte.of_to_N.

(** The detector-descriptor cacher: the input is the image (its pixel
    bytes) and the detector configuration (here [max_keypoints]). *)
Definition detector_key (x : list Byte.byte * nat) : list Byte.byte * nat := x.

(** The matcher cacher: the input is the two keypoint/descriptor sets
    (as coordinate lists), the two image shapes and the ratio-test
    threshold. *)
Definition matcher_key (x : list (Z * Z) * list (Z * Z) * (nat * nat) * (nat * nat) * Q)
    : list (Z * Z) * list (Z * Z) * (nat * nat) * (nat * nat) * (Z * positive) :=
  let '(k1, k2, s1, s2, r) := x in (k1, k2, s1, s2, (Qnum r, Qden r)).

End Cacher.

(* ------------------------------------------------------------------ *)
(** ** The multi-view optimiser's task graph and its execution *)

Module TaskGraph.

(** The barrier stages §4.2-§4.6, in the order [MultiViewOptimizer] wires
    its modules ([part_001], lines 41-73). *)
Inductive stage :=
| ViewGraphEstimation
| RotationAveraging
| TranslationAveraging
| DataAssociation
| BundleAdjustment.

(** A per-pair two-view task, or one stage run on one connected
    component. *)
Inductive task :=
| TwoView (i1 i2 : nat)
| Stage (component : nat) (s : stage).

#[global] Instance stage_eq_dec : EqDecision stage.
Proof. solve_decision. Defined.
#[global] Instance task_eq_dec : EqDecision task.
Proof. solve_decision. Defined.

Record pipeline := {
  image_pairs : list (nat * nat);
  use_view_graph_estimator : bool  (* "comment out to not run" *)
}.

Definition two_view_tasks (g : pipeline) : list task :=
  map (fun '(i1, i2) => TwoView i1 i2) (image_pairs g).

(** Modelled from the spec: the computation graph of
    [MultiViewOptimizer.create_computation_graph] (not in the snapshot).
    Two-view tasks are independent; each barrier stage of a component
    needs every upstream result it consumes: the first stage needs all
    two-view results, rotation averaging the filtered view graph, and
    translation averaging the rotations (§4.4) as well. *)
Definition deps (g : pipeline) (t : task) : list task :=
  match t with
  | TwoView _ _ => []
  | Stage c ViewGraphEstimation => two_view_tasks g
  | Stage c RotationAveraging =>
      if use_view_graph_estimator g then [Stage c ViewGraphEstimation]
      else two_view_tasks g
  | Stage c TranslationAveraging =>
      Stage c RotationAveraging ::
      (if use_view_graph_estimator g then [Stage c ViewGraphEstimation]
       else two_view_tasks g)
  | Stage c DataAssociation =>
      [Stage c RotationAveraging; Stage c TranslationAveraging]
  | Stage c BundleAdjustment =>
      [Stage c RotationAveraging; Stage c TranslationAveraging;
       Stage c DataAssociation]
  end.

Inductive status :=
| Pending
| Running
| Done.

#[global] Instance status_eq_dec : EqDecision status.
Proof. solve_decision. Defined.

Definition state := task -> status.

Definition init : state := fun _ => Pending.

Definition set_status (s : state) (t : task) (st : status) : state :=
  fun t' => if decide (t' = t) then st else s t'.

(** Scheduler events, interleaved arbitrarily across workers. *)
Inductive event :=
| Start (t : task)
| Finish (t : task).

(** Modelled from the spec: the task scheduler (§5).  A task may start
    only once it is pending and every task it depends on is done; a
    running task may finish.  Any other event is refused. *)
Definition step (g : pipeline) (s : state) (ev : event) : option state :=
  match ev with
  | Start t =>
      if decide (s t = Pending) then
        if forallb (fun d => bool_decide (s d = Done)) (deps g t)
        then Some (set_status s t Running) else None
      else None
  | Finish t =>
      if decide (s t = Running) then Some (set_status s t Done) else None
  end.

Fixpoint exec (g : pipeline) (s : state) (evs : list event) : option state :=
  match evs with
  | [] => Some s
  | ev :: evs' =>
      match step g s ev with
      | Some s' => exec g s' evs'
      | None => None
      end
  end.

(** Every task that has begun found all its dependencies done. *)
Definition deps_done (g : pipeline) (s : state) : Prop :=
  forall t d, d ∈ deps g t -> s t <> Pending -> s d = Done.

End TaskGraph.

(* ------------------------------------------------------------------ *)
(** ** RANSAC verification of one image pair *)

Module Verifier.

(** A direction in 3D, kept normalised as [gtsam.Unit3] keeps it. *)
Record Unit3 := {
  ux : Q; uy : Q; uz : Q;
  unit_norm : Qeq_bool (ux * ux + uy * uy + uz * uz) 1 = true
}.

Record Ransac := {
  use_intrinsics_in_verification : bool;
  estimation_threshold_px : Q
}.

(** Size of the minimal sample of the solver: five points for the
    essential matrix (intrinsics trusted), eight for the fundamental
    matrix. *)
Definition min_num_matches (r : Ransac) : nat :=
  if use_intrinsics_in_verification r then 5 else 8.

Section Verify.

Context {Rot3 Keypoints Calibration : Type}.

(** The robust estimator with its minimal solver, at the configured
    pixel threshold: relative rotation, direction and inlier subset, or
    [None] when no model is found. *)
Variable estimate : Ransac -> Keypoints -> Keypoints -> list (nat * nat)
  -> Calibration -> Calibration -> option (Rot3 * Unit3 * list (nat * nat)).

(** Modelled from the spec: [Ransac.verify] (not in the snapshot), with
    the four results the notebook unpacks (cell 28:
    [i2Ri1, i2Ui1, v_corr_idxs, inlier_ratio_est_model]).  "Output: a
    Relative Pose Edge or a signal that verification failed"; failure is
    "too few correspondences or inliers for a pair". *)
Definition verify (r : Ransac) (keypoints_i1 keypoints_i2 : Keypoints)
    (match_indices : list (nat * nat)) (intr1 intr2 : Calibration)
    : option Rot3 * option Unit3 * list (nat * nat) * Q :=
  if Nat.ltb (length match_indices) (min_num_matches r)
  then (None, None, [], 0%Q)
  else match estimate r keypoints_i1 keypoints_i2 match_indices intr1 intr2 with
       | None => (None, None, [], 0%Q)
       | Some (R, U, inliers) =>
           (Some R, Some U, inliers,
            (inject_Z (Z.of_nat (length inliers))
             / inject_Z (Z.of_nat (length match_indices)))%Q)
       end.

End Verify.

End Verifier.

(* ------------------------------------------------------------------ *)
(** ** Rotation averaging *)

Module RotAvg.

(** Relative rotation measurements keyed by camera pair. *)
Section Objective.

Context {Rot3 : Type}.
Variable mul : Rot3 -> Rot3 -> Rot3.
Variable inv : Rot3 -> Rot3.
(** Robustified angular distance of a rotation from the identity. *)
Variable angle : Rot3 -> Q.

(** Discrepancy between a measured relative rotation [M] of edge (i, j)
    and [R_i^-1 * R_j]. *)
Definition discrepancy (M Ri Rj : Rot3) : Q :=
  angle (mul (inv M) (mul (inv Ri) Rj)).

(** Modelled from the spec: the objective of [ShonanRotationAveraging]
    (module [gtsfm.averaging.rotation.shonan], configured in
    [part_001], line 50, not in the snapshot): "a robust sum of angular
    discrepancy between measured relative rotations and R_i^-1 * R_j over
    all edges". *)
Definition cost (es : list ((nat * nat) * Rot3)) (R : nat -> Rot3) : Q :=
  fold_right Qplus 0%Q (map (fun '((i, j), M) => discrepancy M (R i) (R j)) es).

(** The solutions of rotation averaging: the global minimisers. *)
Definition is_minimizer (es : list ((nat * nat) * Rot3)) (R : nat -> Rot3) : Prop :=
  forall R', (cost es R <= cost es R')%Q.

(** Every input relative rotation conjugated by one global rotation. *)
Definition conjugate_edges (g : Rot3) (es : list ((nat * nat) * Rot3))
    : list ((nat * nat) * Rot3) :=
  map (fun '(k, M) => (k, mul (mul g M) (inv g))) es.

(** The per-camera rotations moved by that global rotation. *)
Definition regauge (g : Rot3) (R : nat -> Rot3) : nat -> Rot3 :=
  fun i => mul (R i) (inv g).

End Objective.

(** Connected components of the cameras touched by the edges. *)
Definition touches_cam (i j : nat) (c : list nat) : bool :=
  bool_decide (i ∈ c) || bool_decide (j ∈ c).

Definition union_cameras {Rot3 : Type} (cs : list (list nat))
    (e : (nat * nat) * Rot3) : list (list nat) :=
  let '((i, j), _) := e in
  remove_dups (i :: j :: concat (filter (touches_cam i j) cs))
    :: filter (fun c => negb (touches_cam i j c)) cs.

Definition components {Rot3 : Type} (es : list ((nat * nat) * Rot3))
    : list (list nat) :=
  fold_left union_cameras es [].

Definition component_edges {Rot3 : Type} (es : list ((nat * nat) * Rot3))
    (c : list nat) : list ((nat * nat) * Rot3) :=
  filter (fun '((i, _), _) => bool_decide (i ∈ c)) es.

Section Run.

Context {Rot3 : Type}.

(** Shonan averaging on one connected component: a rotation per camera,
    or [None] when the optimiser fails to converge. *)
Variable solve : list ((nat * nat) * Rot3) -> option (nat -> Rot3).

Definition camera_rotation (es : list ((nat * nat) * Rot3)) (i : nat)
    : option Rot3 :=
  match list_find (fun c => i ∈ c) (components es) with
  | None => None
  | Some (_, c) =>
      match solve (component_edges es c) with
      | Some sol => Some (sol i)
      | None => None
      end
  end.

(** Modelled from the spec: [ShonanRotationAveraging.run] (not in the
    snapshot), called in the notebook (cell 21) as
    [shonan.run(320, i2Ri1_dict=..., i2Ti1_priors=[])[300:320]].
    "Output: one global rotation per camera for each connected component
    that contains at least one camera, or a no-result signal for isolated
    cameras"; a component whose optimisation diverges produces no poses
    (§7). *)
Definition run (num_images : nat) (i2Ri1_dict : list ((nat * nat) * Rot3))
    : list (option Rot3) :=
  map (camera_rotation i2Ri1_dict) (seq 0 num_images).

End Run.

(** A concrete non-commutative rotation group for instantiation: the
    permutations of three axes, listed by the images of 0, 1 and 2, with
    the number of moved axes as its angle (invariant under conjugation,
    as the rotation angle is). *)
Inductive perm3 := P012 | P021 | P102 | P120 | P201 | P210.

Definition perm3_app (p : perm3) (x : nat) : nat :=
  match p, x with
  | P012, 0 => 0 | P012, 1 => 1 | P012, _ => 2
  | P021, 0 => 0 | P021, 1 => 2 | P021, _ => 1
  | P102, 0 => 1 | P102, 1 => 0 | P102, _ => 2
  | P120, 0 => 1 | P120, 1 => 2 | P120, _ => 0
  | P201, 0 => 2 | P201, 1 => 0 | P201, _ => 1
  | P210, 0 => 2 | P210, 1 => 1 | P210, _ => 0
  end.

Definition perm3_of (a b c : nat) : perm3 :=
  match a, b, c with
  | 0, 1, _ => P012 | 0, _, _ => P021
  | 1, 0, _ => P102 | 1, _, _ => P120
  | 2, 0, _ => P201 | _, _, _ => P210
  end.

Definition perm3_mul (p q : perm3) : perm3 :=
  perm3_of (perm3_app p (perm3_app q 0)) (perm3_app p (perm3_app q 1))
           (perm3_app p (perm3_app q 2)).

Definition perm3_inv (p : perm3) : perm3 :=
  match p with
  | P120 => P201
  | P201 => P120
  | _ => p
  end.

Definition perm3_angle (p : perm3) : Q :=
  inject_Z (Z.of_nat (length (filter (fun x => negb (Nat.eqb (perm3_app p x) x))
                                     [0; 1; 2]))).

End RotAvg.


(* ------------------------------------------------------------------ *)
(** ** The exploration notebook (src/notebooks/explore_hilti.ipynb) *)

Module Notebook.

(** [x in range(a, b)] for a step-one range. *)
Definition in_range (a b x : nat) : bool := Nat.leb a x && Nat.ltb x b.

(** Cell 9: [image_indices_filter = range(300, 300 + 20)]. *)
Definition image_indices_start : nat := 300.
Definition image_indices_stop : nat := 300 + 20.

(** Cell 12: [subset_pair_indices = [(i1, i2) for (i1, i2) in
    image_pair_indices if i1 in image_indices_filter and i2 in
    image_indices_filter]]. *)
Definition subset_pair_indices (image_pair_indices : list (nat * nat))
    : list (nat * nat) :=
  filter (fun '(i1, i2) =>
            in_range image_indices_start image_indices_stop i1
            && in_range image_indices_start image_indices_stop i2)
    image_pair_indices.

(** Python's [l[a:b]] for bounds [0 <= a <= b] (clamped to the length). *)
Definition py_slice {A : Type} (l : list A) (a b : nat) : list A :=
  take (b - a) (drop a l).

(** Cell 21: [wRi_shonan = shonan.run(320, i2Ri1_dict=..., i2Ti1_priors=[])[300:320]],
    over the model of [run]. *)
Definition wRi_shonan {Rot3 : Type} (solve : list ((nat * nat) * Rot3) -> option (nat -> Rot3))
    (num_images : nat) (i2Ri1_dict : list ((nat * nat) * Rot3)) : list (option Rot3) :=
  py_slice (RotAvg.run solve num_images i2Ri1_dict) 300 320.

(** Cell 23: [wRi_shonan[i2-300].between(wRi_shonan[i1-300])]; gtsam's
    [a.between(b)] is [a.inverse() * b]. *)
Definition between {Rot3 : Type} (mul : Rot3 -> Rot3 -> Rot3) (inv : Rot3 -> Rot3)
    (a b : Rot3) : Rot3 :=
  mul (inv a) b.

(** *** Cell 20: the hacked copy of the relative-rotation dictionary *)

(** Python objects on a heap ([gmap nat (gmap (nat * nat) Rot3)]): each
    location holds one dictionary from camera pairs to rotations. *)
Section Heap.

Context {Rot3 : Type}.

(** [dict(d)]: a fresh object holding a copy of [d]'s entries. *)
Definition py_dict_copy (h : gmap nat (gmap (nat * nat) Rot3)) (l : nat)
    : option (nat * gmap nat (gmap (nat * nat) Rot3)) :=
  match h !! l with
  | Some d => let l' := fresh (dom h) in Some (l', <[l' := d]> h)
  | None => None
  end.

(** [d[k] = v] on the object at [l]. *)
Definition py_setitem (h : gmap nat (gmap (nat * nat) Rot3)) (l : nat)
    (k : nat * nat) (v : Rot3)
    : option (gmap nat (gmap (nat * nat) Rot3)) :=
  match h !! l with
  | Some d => Some (<[l := <[k := v]> d]> h)
  | None => None
  end.

(** [loader.get_relative_pose_prior(i1, i2).value.rotation()]. *)
Variable prior_rotation : nat -> nat -> Rot3.

(** [for (i1, i2) in hacked_pairs: ... i2Ri1_input_hacked[(i1, i2)] = i2Ri1_from_prior]. *)
Fixpoint overwrite_pairs (h : gmap nat (gmap (nat * nat) Rot3)) (l : nat)
    (pairs : list (nat * nat))
    : option (gmap nat (gmap (nat * nat) Rot3)) :=
  match pairs with
  | [] => Some h
  | (i1, i2) :: ps =>
      match py_setitem h l (i1, i2) (prior_rotation i1 i2) with
      | Some h' => overwrite_pairs h' l ps
      | None => None
      end
  end.

(** Cell 20, with [i2Ri1_dict] the object at [l_dict]: returns the
    location of [i2Ri1_input_hacked] and the heap afterwards. *)
Definition cell20 (h : gmap nat (gmap (nat * nat) Rot3)) (l_dict : nat)
    (hacked_pairs : list (nat * nat))
    : option (nat * gmap nat (gmap (nat * nat) Rot3)) :=
  match py_dict_copy h l_dict with
  | Some (l_hacked, h1) =>
      match overwrite_pairs h1 l_hacked hacked_pairs with
      | Some h2 => Some (l_hacked, h2)
      | None => None
      end
  | None => None
  end.

End Heap.

Definition hacked_pairs : list (nat * nat) :=
  [(300, 302); (305, 307); (310, 312); (315, 317)].

(** *** Cells 6-7: the IMU poses in the world frame *)

Record Point3 := { px : Q; py : Q; pz : Q }.

(** A 3x3 matrix by rows. *)
Record Rot3 := {
  r11 : Q; r12 : Q; r13 : Q;
  r21 : Q; r22 : Q; r23 : Q;
  r31 : Q; r32 : Q; r33 : Q
}.

Record Pose3 := { rotation : Rot3; translation : Point3 }.

(** gtsam's [Rot3(col1, col2, col3)] takes the three columns. *)
Definition rot3_of_columns (c1 c2 c3 : Point3) : Rot3 :=
  {| r11 := px c1; r12 := px c2; r13 := px c3;
     r21 := py c1; r22 := py c2; r23 := py c3;
     r31 := pz c1; r32 := pz c2; r33 := pz c3 |}.

Definition rot3_mul (a b : Rot3) : Rot3 :=
  {| r11 := r11 a * r11 b + r12 a * r21 b + r13 a * r31 b;
     r12 := r11 a * r12 b + r12 a * r22 b + r13 a * r32 b;
     r13 := r11 a * r13 b + r12 a * r23 b + r13 a * r33 b;
     r21 := r21 a * r11 b + r22 a * r21 b + r23 a * r31 b;
     r22 := r21 a * r12 b + r22 a * r22 b + r23 a * r32 b;
     r23 := r21 a * r13 b + r22 a * r23 b + r23 a * r33 b;
     r31 := r31 a * r11 b + r32 a * r21 b + r33 a * r31 b;
     r32 := r31 a * r12 b + r32 a * r22 b + r33 a * r32 b;
     r33 := r31 a * r13 b + r32 a * r23 b + r33 a * r33 b |}.

Definition rot3_transpose (a : Rot3) : Rot3 :=
  {| r11 := r11 a; r12 := r21 a; r13 := r31 a;
     r21 := r12 a; r22 := r22 a; r23 := r32 a;
     r31 := r13 a; r32 := r23 a; r33 := r33 a |}.

Definition rot3_det (a : Rot3) : Q :=
  r11 a * (r22 a * r33 a - r23 a * r32 a)
  - r12 a * (r21 a * r33 a - r23 a * r31 a)
  + r13 a * (r21 a * r32 a - r22 a * r31 a).

Definition rot3_identity : Rot3 :=
  {| r11 := 1; r12 := 0; r13 := 0; r21 := 0; r22 := 1; r23 := 0;
     r31 := 0; r32 := 0; r33 := 1 |}.

Definition rot3_rotate (a : Rot3) (p : Point3) : Point3 :=
  {| px := r11 a * px p + r12 a * py p + r13 a * pz p;
     py := r21 a * px p + r22 a * py p + r23 a * pz p;
     pz := r31 a * px p + r32 a * py p + r33 a * pz p |}.

(** gtsam's [Pose3 * Pose3]: [(R1, t1) * (R2, t2) = (R1 R2, R1 t2 + t1)]. *)
Definition pose3_compose (a b : Pose3) : Pose3 :=
  let t := rot3_rotate (rotation a) (translation b) in
  {| rotation := rot3_mul (rotation a) (rotation b);
     translation := {| px := px t + px (translation a);
                       py := py t + py (translation a);
                       pz := pz t + pz (translation a) |} |}.

(** Cell 6: [wTimu0 = Pose3(Rot3(Point3(1, 0, 0), Point3(0, -1, 0),
    Point3(0, 0, -1)), Point3(0, 0, 0))]. *)
Definition wTimu0 : Pose3 :=
  {| rotation := rot3_of_columns {| px := 1; py := 0; pz := 0 |}
                                 {| px := 0; py := -1; pz := 0 |}
                                 {| px := 0; py := 0; pz := -1 |};
     translation := {| px := 0; py := 0; pz := 0 |} |}.

(** Numerical equality of points, matrices and poses. *)
Definition point3_eq (p q : Point3) : Prop :=
  (px p == px q /\ py p == py q /\ pz p == pz q)%Q.

Definition rot3_eq (a b : Rot3) : Prop :=
  (r11 a == r11 b /\ r12 a == r12 b /\ r13 a == r13 b /\
   r21 a == r21 b /\ r22 a == r22 b /\ r23 a == r23 b /\
   r31 a == r31 b /\ r32 a == r32 b /\ r33 a == r33 b)%Q.

Definition pose3_eq (a b : Pose3) : Prop :=
  rot3_eq (rotation a) (rotation b) /\ point3_eq (translation a) (translation b).

(** A Python dict as its entries in insertion order. [d[k] = v]
    replaces the value of a present key in place and appends a new key. *)
Fixpoint py_dict_set {V : Type} (d : list (nat * V)) (k : nat) (v : V)
    : list (nat * V) :=
  match d with
  | [] => [(k, v)]
  | (k', v') :: d' => if Nat.eqb k k' then (k, v) :: d' else (k', v') :: py_dict_set d' k v
  end.

(** Cell 7: [rig_indices = range(0, 250)]; [wTimu = {i: (wTimu0 *
    loader._w_T_imu[i]) for i in rig_indices}], where the subscript of the
    loader's dict raises [KeyError] (here [None]) on an absent index. *)
Definition rig_indices : list nat := seq 0 250.

Fixpoint wTimu_loop (w_T_imu : gmap nat Pose3) (idx : list nat)
    (acc : list (nat * Pose3)) : option (list (nat * Pose3)) :=
  match idx with
  | [] => Some acc
  | i :: idx' =>
      match w_T_imu !! i with
      | Some T => wTimu_loop w_T_imu idx' (py_dict_set acc i (pose3_compose wTimu0 T))
      | None => None
      end
  end.

Definition wTimu_comprehension (w_T_imu : gmap nat Pose3) (idx : list nat)
    : option (list (nat * Pose3)) :=
  wTimu_loop w_T_imu idx [].

(** [translations = np.array([t.translation() for t in wTimu.values()])]. *)
Definition cell7_translations (w_T_imu : gmap nat Pose3) (idx : list nat)
    : option (list Point3) :=
  match wTimu_comprehension w_T_imu idx with
  | Some wTimu => Some (map (fun '(_, t) => translation t) wTimu)
  | None => None
  end.

(** Python's [l[z]]: a negative index counts from the end; out of range
    raises [IndexError] ([None]). *)
Definition py_getitem {A : Type} (l : list A) (z : Z) : option A :=
  if (z <? 0)%Z then
    if (Z.of_nat (length l) + z <? 0)%Z then None
    else l !! Z.to_nat (Z.of_nat (length l) + z)
  else l !! Z.to_nat z.

(** Cell 23: [i2Ri1_shonan = wRi_shonan[i2-300].between(wRi_shonan[i1-300])].
    An entry of [wRi_shonan] is [None] for a camera without a rotation, and
    calling [between] on it raises; either error gives [None] here. *)
Definition cell23_i2Ri1_shonan {Rot3 : Type} (mul : Rot3 -> Rot3 -> Rot3)
    (inv : Rot3 -> Rot3) (wRi : list (option Rot3)) (i1 i2 : nat) : option Rot3 :=
  match py_getitem wRi (Z.of_nat i2 - 300), py_getitem wRi (Z.of_nat i1 - 300) with
  | Some (Some a), Some (Some b) => Some (between mul inv a b)
  | _, _ => None
  end.

End Notebook.

(* ------------------------------------------------------------------ *)
(** ** Concrete instances used to exercise the statements *)

Module Demo.

(** One-dimensional observations; a pair of distinct observations
    triangulates to its midpoint, equal ones are degenerate. *)
Definition triangulate (obs : list Q) : option Q :=
  match obs with
  | [a; b] => if Qeq_bool a b then None else Some ((a + b) / 2)%Q
  | _ => None
  end.

Definition reproj_error (p o : Q) : Q := Qabs (p - o).

Definition track : list Q := [1; 2; 4]%Q.

Definition random_stream : list (nat * nat) := [(0, 0); (1, 1); (2, 0)].

(** A pipeline with two image pairs and the view-graph estimator on, and
    an execution that runs one component up to translation averaging. *)
Definition pipeline : TaskGraph.pipeline :=
  {| TaskGraph.image_pairs := [(0, 1); (1, 2)];
     TaskGraph.use_view_graph_estimator := true |}.

Definition events : list TaskGraph.event :=
  [TaskGraph.Start (TaskGraph.TwoView 0 1); TaskGraph.Start (TaskGraph.TwoView 1 2);
   TaskGraph.Finish (TaskGraph.TwoView 1 2); TaskGraph.Finish (TaskGraph.TwoView 0 1);
   TaskGraph.Start (TaskGraph.Stage 0 TaskGraph.ViewGraphEstimation);
   TaskGraph.Finish (TaskGraph.Stage 0 TaskGraph.ViewGraphEstimation);
   TaskGraph.Start (TaskGraph.Stage 0 TaskGraph.RotationAveraging);
   TaskGraph.Finish (TaskGraph.Stage 0 TaskGraph.RotationAveraging);
   TaskGraph.Start (TaskGraph.Stage 0 TaskGraph.TranslationAveraging)].

Definition final_state : TaskGraph.state :=
  match TaskGraph.exec pipeline TaskGraph.init events with
  | Some s => s
  | None => TaskGraph.init
  end.

(** A stand-in detector: the number of keypoints it keeps from an image. *)
Definition detect (x : list Byte.byte * nat) : nat :=
  let '(img, max_keypoints) := x in Nat.min max_keypoints (length img).

(** The unit direction along the x axis. *)
Definition unit_x : Verifier.Unit3 :=
  {| Verifier.ux := 1; Verifier.uy := 0; Verifier.uz := 0;
     Verifier.unit_norm := eq_refl |}.

(** The verifier of the notebook (cell 28), and an estimator that always
    finds a model whose inliers are all the matches. *)
Definition notebook_ransac : Verifier.Ransac :=
  {| Verifier.use_intrinsics_in_verification := false;
     Verifier.estimation_threshold_px := 2 |}.

Definition always_estimate (r : Verifier.Ransac) (k1 k2 : unit) (m : list (nat * nat))
    (c1 c2 : unit) : option (unit * Verifier.Unit3 * list (nat * nat)) :=
  Some (tt, unit_x, m).

(** A relative-rotation dictionary for cell 20, alone on the heap at
    location 0, and a prior that returns one rotation for every pair. *)
Definition i2Ri1_dict : gmap (nat * nat) RotAvg.perm3 :=
  {[(300, 302) := RotAvg.P012; (1, 2) := RotAvg.P120]}.

Definition heap0 : gmap nat (gmap (nat * nat) RotAvg.perm3) := {[0 := i2Ri1_dict]}.

Definition prior (_ _ : nat) : RotAvg.perm3 := RotAvg.P210.

(** A solver that returns a fixed rotation for every camera. *)
Definition shonan_solve (_ : list ((nat * nat) * RotAvg.perm3)) : option (nat -> RotAvg.perm3) :=
  Some (fun i => if Nat.even i then RotAvg.P012 else RotAvg.P120).

End Demo.

(* ================================================================== *)
(** * Properties *)

(** ** Small evaluations of the models *)

Example median_odd : ViewGraph.median [3; 1; 2]%Q = 2%Q.
Proof. reflexivity. Qed.

Example median_even : ViewGraph.median [3; 1; 2; 10]%Q = (5 # 2)%Q.
Proof. reflexivity. Qed.

(** A chain of matches 0-1-2 makes one track of three cameras. *)
Example tracks_chain :
  DataAssoc.generate_tracks Config.min_track_len
    [((0, 1), [(5, 7)]); ((1, 2), [(7, 1)])] = [[(2, 1); (0, 5); (1, 7)]].
Proof. reflexivity. Qed.

(** A closed chain that returns to camera 0 at another keypoint unites two
    observations of camera 0; the transitive union alone would output that
    track, the model discards it. *)
Example tracks_repeated_camera :
  DataAssoc.union_tracks [((0, 1), [(5, 7)]); ((1, 2), [(7, 1)]); ((0, 2), [(9, 1)])]
    = [[(0, 9); (2, 1); (0, 5); (1, 7)]] /\
  DataAssoc.generate_tracks Config.min_track_len
    [((0, 1), [(5, 7)]); ((1, 2), [(7, 1)]); ((0, 2), [(9, 1)])] = [].
Proof. split; reflexivity. Qed.

(** Planar rotations given by their angle in degrees: a triangle whose
    third edge is off by 60 degrees loses all three edges at a 5 degree
    threshold, also when it is stored as a directed cycle, while the edge
    (3, 4), in no triplet, passes through. *)
Example view_graph_planar :
  (ViewGraph.filter_edges Qopp (fun ab bc ac => Qabs (ab + bc - ac))
    {| ViewGraph.edge_error_aggregation_criterion := Config.MEDIAN_EDGE_ERROR;
       ViewGraph.error_threshold := 5%Q |}
    [((0, 1), 10%Q); ((1, 2), 20%Q); ((0, 2), 90%Q); ((3, 4), 0%Q)]
  = [((3, 4), 0%Q)]) /\
  ViewGraph.filter_edges Qopp (fun ab bc ac => Qabs (ab + bc - ac))
    {| ViewGraph.edge_error_aggregation_criterion := Config.MEDIAN_EDGE_ERROR;
       ViewGraph.error_threshold := 5%Q |}
    [((0, 1), 10%Q); ((1, 2), 20%Q); ((2, 0), (-90)%Q); ((3, 4), 0%Q)]
  = [((3, 4), 0%Q)].
Proof. split; reflexivity. Qed.

(** Fourteen inliers are too few; fifteen at ratio 1/10 are enough. *)
Example inlier_support_boundary :
  InlierSupport.run_inlier_support InlierSupport.configured
    {| InlierSupport.i2Ri1 := tt; InlierSupport.i2Ui1 := tt;
       InlierSupport.v_corr_idxs := repeat (0, 0) 14;
       InlierSupport.inlier_ratio_est_model := 1 |}
  = InlierSupport.VerificationFailure /\
  InlierSupport.run_inlier_support InlierSupport.configured
    {| InlierSupport.i2Ri1 := tt; InlierSupport.i2Ui1 := tt;
       InlierSupport.v_corr_idxs := repeat (0, 0) 15;
       InlierSupport.inlier_ratio_est_model := 1 # 10 |}
  <> InlierSupport.VerificationFailure.
Proof. split; [reflexivity | discriminate]. Qed.

(** ** Data association (C2) *)

(** C2: every track of the Data Association output has observations from
    pairwise distinct cameras and at least the configured minimum number of
    observations, for every input correspondence set and every configured
    minimum (default [Config.min_track_len] = 2). *)
Theorem data_association_track_invariants (min_track_len : nat)
    (corr : DataAssoc.corr_dict) :
  Forall (fun t => NoDup (map fst t) /\ min_track_len <= length t)
    (DataAssoc.generate_tracks min_track_len corr).
Proof.
  apply Forall_forall; intros t Ht.
  unfold DataAssoc.generate_tracks in Ht.
  apply list_elem_of_filter in Ht as [Hk _].
  apply Is_true_true in Hk.
  apply andb_prop in Hk as [Hlen Huniq].
  unfold DataAssoc.has_unique_cameras in Huniq.
  apply bool_decide_eq_true in Huniq.
  apply Nat.leb_le in Hlen.
  split; assumption.
Qed.

(** ** View-graph estimator (C3) *)

Section ViewGraphFacts.

Context {Rot3 : Type}.
Variable inv : Rot3 -> Rot3.
Variable cycle_error : Rot3 -> Rot3 -> Rot3 -> Q.

Lemma lookup_edge_elem (k : nat * nat) (es : list ((nat * nat) * Rot3)) (r : Rot3) :
  ViewGraph.lookup_edge k es = Some r -> (k, r) ∈ es.
Proof.
  induction es as [| [k' r'] es IH]; simpl; [discriminate |].
  case_decide as Hk.
  - intros [= <-]. subst. left.
  - intros H. right. apply IH, H.
Qed.

Lemma lookup_edge_None (k : nat * nat) (es : list ((nat * nat) * Rot3)) :
  ViewGraph.lookup_edge k es = None -> forall r, (k, r) ∉ es.
Proof.
  induction es as [| [k' r'] es IH]; simpl; intros H r.
  - apply not_elem_of_nil.
  - case_decide as Hk; [discriminate |].
    intros Hin. apply elem_of_cons in Hin as [Heq | Hin].
    + injection Heq as -> _. contradiction.
    + exact (IH H r Hin).
Qed.

Lemma lookup_undirected_adjacent (es : list ((nat * nat) * Rot3)) (i j : nat) :
  is_Some (ViewGraph.lookup_undirected inv es i j) <-> ViewGraph.adjacent es i j.
Proof.
  unfold ViewGraph.lookup_undirected, ViewGraph.adjacent.
  destruct (ViewGraph.lookup_edge (i, j) es) as [r |] eqn:E1.
  - split; [intros _; exists r; left; apply lookup_edge_elem, E1 | intros _; eexists; reflexivity].
  - destruct (ViewGraph.lookup_edge (j, i) es) as [r |] eqn:E2.
    + split; [intros _; exists r; right; apply lookup_edge_elem, E2 | intros _; eexists; reflexivity].
    + split; [intros [x Hx]; discriminate |].
      intros [r [H | H]]; [exact (False_ind _ (lookup_edge_None _ _ E1 r H)) |
                           exact (False_ind _ (lookup_edge_None _ _ E2 r H))].
Qed.

Lemma adjacent_sym (es : list ((nat * nat) * Rot3)) (i j : nat) :
  ViewGraph.adjacent es i j -> ViewGraph.adjacent es j i.
Proof. intros [r [H | H]]; exists r; [right | left]; exact H. Qed.

Lemma cameras_adjacent (es : list ((nat * nat) * Rot3)) (a : nat) :
  a ∈ ViewGraph.cameras es <-> exists b, ViewGraph.adjacent es a b.
Proof.
  unfold ViewGraph.cameras. rewrite elem_of_remove_dups, list_elem_of_In, in_flat_map.
  split.
  - intros [[[i j] r] [Hin Ha]]. apply list_elem_of_In in Hin.
    simpl in Ha. destruct Ha as [<- | [<- | []]].
    + exists j, r. left. exact Hin.
    + exists i, r. right. exact Hin.
  - intros [b [r [H | H]]]; apply list_elem_of_In in H;
      eexists; (split; [exact H | simpl; auto]).
Qed.

Lemma triplets_elem (es : list ((nat * nat) * Rot3)) (a b c : nat) (q : Q) :
  ((a, b, c), q) ∈ ViewGraph.triplets inv cycle_error es ->
  a < b < c /\ ViewGraph.adjacent es a b /\ ViewGraph.adjacent es b c /\
  ViewGraph.adjacent es a c.
Proof.
  unfold ViewGraph.triplets. rewrite list_elem_of_In, in_flat_map.
  intros [a' [_ H]]. rewrite in_flat_map in H. destruct H as [b' [_ H]].
  rewrite in_flat_map in H. destruct H as [c' [_ H]].
  destruct (decide (a' < b' < c')) as [Hlt |]; [| destruct H].
  destruct (ViewGraph.lookup_undirected inv es a' b') as [rab |] eqn:E1; [| destruct H].
  destruct (ViewGraph.lookup_undirected inv es b' c') as [rbc |] eqn:E2; [| destruct H].
  destruct (ViewGraph.lookup_undirected inv es a' c') as [rac |] eqn:E3; [| destruct H].
  destruct H as [H | []]. injection H as -> -> -> _.
  split; [exact Hlt |].
  split; [apply lookup_undirected_adjacent; rewrite E1; eexists; reflexivity |].
  split; [apply lookup_undirected_adjacent; rewrite E2; eexists; reflexivity |].
  apply lookup_undirected_adjacent; rewrite E3; eexists; reflexivity.
Qed.

Lemma triplets_complete (es : list ((nat * nat) * Rot3)) (a b c : nat) :
  a < b < c -> ViewGraph.adjacent es a b -> ViewGraph.adjacent es b c ->
  ViewGraph.adjacent es a c ->
  exists q, ((a, b, c), q) ∈ ViewGraph.triplets inv cycle_error es.
Proof.
  intros Hlt Hab Hbc Hac.
  destruct (proj2 (lookup_undirected_adjacent es a b) Hab) as [rab Eab].
  destruct (proj2 (lookup_undirected_adjacent es b c) Hbc) as [rbc Ebc].
  destruct (proj2 (lookup_undirected_adjacent es a c) Hac) as [rac Eac].
  exists (cycle_error rab rbc rac).
  unfold ViewGraph.triplets. rewrite list_elem_of_In, in_flat_map.
  exists a. split; [apply list_elem_of_In, cameras_adjacent; exists b; exact Hab |].
  rewrite in_flat_map. exists b.
  split; [apply list_elem_of_In, cameras_adjacent; exists c; exact Hbc |].
  rewrite in_flat_map. exists c.
  split; [apply list_elem_of_In, cameras_adjacent; exists a; apply adjacent_sym; exact Hac |].
  rewrite decide_True by exact Hlt. rewrite Eab, Ebc, Eac. left. reflexivity.
Qed.

Lemma edge_errors_nonempty (es : list ((nat * nat) * Rot3)) (k : nat * nat) :
  ViewGraph.edge_errors inv cycle_error es k <> [] <->
  exists t q, (t, q) ∈ ViewGraph.triplets inv cycle_error es /\ ViewGraph.in_triplet k t = true.
Proof.
  unfold ViewGraph.edge_errors. split.
  - intros H.
    destruct (filter (fun t => ViewGraph.in_triplet k t.1)
                (ViewGraph.triplets inv cycle_error es)) as [| [t q] l] eqn:E;
      [contradiction |].
    assert (Hin : (t, q) ∈ filter (fun t => ViewGraph.in_triplet k t.1)
                               (ViewGraph.triplets inv cycle_error es))
      by (rewrite E; left).
    apply list_elem_of_filter in Hin as [Hp Hin]. apply Is_true_true in Hp.
    exists t, q. split; [exact Hin | exact Hp].
  - intros (t & q & Hin & Hk) Hnil. apply map_eq_nil in Hnil.
    assert (Hf : (t, q) ∈ filter (fun t => ViewGraph.in_triplet k t.1)
                              (ViewGraph.triplets inv cycle_error es)).
    { apply list_elem_of_filter. split; [apply Is_true_true; exact Hk | exact Hin]. }
    rewrite Hnil in Hf. apply not_elem_of_nil in Hf. exact Hf.
Qed.

Lemma in_sorted_triplet (es : list ((nat * nat) * Rot3)) (x y z : nat) (k : nat * nat) :
  x < y < z -> ViewGraph.adjacent es x y -> ViewGraph.adjacent es y z ->
  ViewGraph.adjacent es x z -> k ∈ [(x, y); (y, x); (y, z); (z, y); (x, z); (z, x)] ->
  ViewGraph.edge_errors inv cycle_error es k <> [].
Proof.
  intros Hlt Hxy Hyz Hxz Hk.
  destruct (triplets_complete es x y z Hlt Hxy Hyz Hxz) as [q Hq].
  apply edge_errors_nonempty. exists (x, y, z), q. split; [exact Hq |].
  apply bool_decide_eq_true. exact Hk.
Qed.

(** An edge (i, j) of the view graph is in some triplet exactly when its
    cameras differ and a third camera shares an edge with both. *)
Lemma edge_errors_nonempty_iff (es : list ((nat * nat) * Rot3)) (i j : nat) :
  ViewGraph.adjacent es i j ->
  ViewGraph.edge_errors inv cycle_error es (i, j) <> [] <->
  i <> j /\ exists c, c <> i /\ c <> j /\ ViewGraph.adjacent es i c /\
                      ViewGraph.adjacent es j c.
Proof.
  intros Hij. split.
  - intros H. apply edge_errors_nonempty in H as ([[a b] c] & q & Hin & Hk).
    apply triplets_elem in Hin as (Hlt & Hab & Hbc & Hac).
    apply bool_decide_eq_true in Hk.
    rewrite list_elem_of_In in Hk. simpl in Hk.
    destruct Hk as [Hk | [Hk | [Hk | [Hk | [Hk | [Hk | []]]]]]];
      injection Hk as <- <-; split; try lia;
      [exists c | exists c | exists a | exists a | exists b | exists b];
      (split; [lia |]); (split; [lia |]);
      split; first [assumption | apply adjacent_sym; assumption].
  - intros [Hne [c (Hci & Hcj & Hic & Hjc)]].
    pose proof (adjacent_sym es _ _ Hij) as Hji.
    pose proof (adjacent_sym es _ _ Hic) as Hci'.
    pose proof (adjacent_sym es _ _ Hjc) as Hcj'.
    destruct (Nat.lt_total i j) as [H1 | [H1 | H1]]; [| contradiction |];
    destruct (Nat.lt_total j c) as [H2 | [H2 | H2]]; try (subst; contradiction);
    destruct (Nat.lt_total i c) as [H3 | [H3 | H3]]; try (subst; contradiction);
    first
      [ solve [apply (in_sorted_triplet es i j c); try lia; try assumption;
               apply list_elem_of_In; simpl; tauto]
      | solve [apply (in_sorted_triplet es i c j); try lia; try assumption;
               apply list_elem_of_In; simpl; tauto]
      | solve [apply (in_sorted_triplet es j i c); try lia; try assumption;
               apply list_elem_of_In; simpl; tauto]
      | solve [apply (in_sorted_triplet es j c i); try lia; try assumption;
               apply list_elem_of_In; simpl; tauto]
      | solve [apply (in_sorted_triplet es c i j); try lia; try assumption;
               apply list_elem_of_In; simpl; tauto]
      | solve [apply (in_sorted_triplet es c j i); try lia; try assumption;
               apply list_elem_of_In; simpl; tauto]
      | lia ].
Qed.

End ViewGraphFacts.

(** C3: with the configured aggregation (median), an edge survives the
    cycle-consistency filter exactly when it was an input edge and either
    it is in no triplet or the median of its triplet errors does not exceed
    the threshold; so every other input edge, and only those, is removed,
    and the filter always returns an edge list (it has no failure case).
    The view graph is undirected: an input edge (i, j) is in no triplet
    exactly when no third camera shares an edge, in either orientation,
    with both i and j (or i = j). *)
Theorem view_graph_filter_spec {Rot3 : Type} (inv : Rot3 -> Rot3)
    (cycle_error : Rot3 -> Rot3 -> Rot3 -> Q) (threshold : Q)
    (es : list ((nat * nat) * Rot3)) (e : (nat * nat) * Rot3) :
  let v := {| ViewGraph.edge_error_aggregation_criterion :=
                Config.edge_error_aggregation_criterion;
              ViewGraph.error_threshold := threshold |} in
  (e ∈ ViewGraph.filter_edges inv cycle_error v es <->
   e ∈ es /\
   (ViewGraph.edge_errors inv cycle_error es e.1 = [] \/
    (ViewGraph.median (ViewGraph.edge_errors inv cycle_error es e.1) <= threshold)%Q)) /\
  (e ∈ es ->
   (ViewGraph.edge_errors inv cycle_error es e.1 = [] <->
    ~ (e.1.1 <> e.1.2 /\
       exists c, c <> e.1.1 /\ c <> e.1.2 /\ ViewGraph.adjacent es e.1.1 c /\
                 ViewGraph.adjacent es e.1.2 c))).
Proof.
  intros v. split.
  - unfold ViewGraph.filter_edges.
    rewrite list_elem_of_filter, Is_true_true.
    unfold ViewGraph.keep_edge; simpl.
    destruct (ViewGraph.edge_errors inv cycle_error es e.1) as [|x xs] eqn:Herr.
    + tauto.
    + rewrite Qle_bool_iff. split.
      * intros [H1 H2]. split; [assumption | right; exact H1].
      * intros [H1 [H2 | H2]]; [discriminate | split; assumption].
  - intros He. destruct e as [[i j] r]. simpl.
    assert (Hij : ViewGraph.adjacent es i j) by (exists r; left; exact He).
    rewrite <- (edge_errors_nonempty_iff inv cycle_error es i j Hij).
    destruct (ViewGraph.edge_errors inv cycle_error es (i, j)); split.
    + intros _ H. apply H. reflexivity.
    + intros _. reflexivity.
    + discriminate.
    + intros H. exfalso. apply H. discriminate.
Qed.

(** ** Inlier-support post-filter (C4) *)

(** C4: with the configured minimums (15 inliers, ratio 1/10), the
    post-filter returns the verification-failure signal exactly when the
    verified inlier count is below 15 or the inlier ratio is below 1/10;
    otherwise it returns the estimate as a Relative Pose Edge.  It has no
    other outcome (no fatal error). *)
Theorem inlier_support_rejects_iff {Rot3 Unit3 : Type}
    (est : @InlierSupport.two_view_estimate Rot3 Unit3) :
  (InlierSupport.run_inlier_support InlierSupport.configured est
     = InlierSupport.VerificationFailure <->
   length (InlierSupport.v_corr_idxs est) < 15 \/
   (InlierSupport.inlier_ratio_est_model est < 1 # 10)%Q) /\
  (InlierSupport.run_inlier_support InlierSupport.configured est
     = InlierSupport.VerificationFailure \/
   InlierSupport.run_inlier_support InlierSupport.configured est
     = InlierSupport.RelativePoseEdge est).
Proof.
  unfold InlierSupport.run_inlier_support, InlierSupport.configured; simpl.
  unfold Config.min_num_inliers_est_model, Config.min_inlier_ratio_est_model.
  destruct (Nat.ltb_spec (length (InlierSupport.v_corr_idxs est)) 15) as [Hn | Hn];
    simpl.
  - split; [split; [intros _; left; exact Hn | intros _; reflexivity] | left; reflexivity].
  - destruct (Qle_bool (1 # 10) (InlierSupport.inlier_ratio_est_model est)) eqn:Hq;
      simpl.
    + apply Qle_bool_iff in Hq.
      split; [split | right; reflexivity].
      * discriminate.
      * intros [H | H]; [lia | apply Qlt_not_le in H; contradiction].
    + split; [split | left; reflexivity].
      * intros _. right. apply Qnot_le_lt. intros H.
        apply Qle_bool_iff in H. congruence.
      * intros _; reflexivity.
Qed.

(** ** Bundle-adjustment output filter (C7) *)

(** C7: after bundle adjustment, a track is in the final track set exactly
    when it was an input track and its final reprojection error is at most
    the configured output threshold of 3 px, so every track above 3 px is
    dropped; and that threshold is strictly smaller than the
    triangulation-stage threshold of 100 px. *)
Theorem bundle_adjustment_output_filter {Track : Type}
    (final_reproj_error : Track -> Q) (tracks : list Track) :
  (forall t, t ∈ BundleAdjustment.filter_tracks final_reproj_error
                  BundleAdjustment.configured tracks <->
             t ∈ tracks /\ (final_reproj_error t <= 3)%Q) /\
  (BundleAdjustment.output_reproj_error_thresh BundleAdjustment.configured
   < Triangulation.reproj_error_threshold Triangulation.configured)%Q.
Proof.
  split.
  - intros t. unfold BundleAdjustment.filter_tracks.
    rewrite list_elem_of_filter, Is_true_true, Qle_bool_iff. simpl. tauto.
  - reflexivity.
Qed.

(** ** Triangulation (C6) *)

Section TriangulationFacts.

Context {Obs Point : Type}.
Variable triangulate : list Obs -> option Point.
Variable reproj_error : Point -> Obs -> Q.

Abbreviation evaluate := (Triangulation.evaluate triangulate reproj_error).
Abbreviation best_hypothesis := (Triangulation.best_hypothesis triangulate reproj_error).

Lemma sample_pair_distinct (n : nat) (r : nat * nat) :
  2 <= n ->
  let idx := Triangulation.sample_pair n r in
  length idx = 2 /\ NoDup idx /\ Forall (fun i => i < n) idx.
Proof.
  intros Hn. unfold Triangulation.sample_pair. simpl.
  set (i := r.1 mod n). set (k := r.2 mod (n - 1)).
  assert (Hi : i < n) by (apply Nat.mod_upper_bound; lia).
  assert (Hk : k < n - 1) by (apply Nat.mod_upper_bound; lia).
  assert (Hj : (i + 1 + k) mod n < n) by (apply Nat.mod_upper_bound; lia).
  assert (Hne : (i + 1 + k) mod n <> i).
  { destruct (Nat.lt_ge_cases (i + 1 + k) n) as [Hlt | Hge].
    - rewrite Nat.mod_small by lia. lia.
    - replace (i + 1 + k) with ((i + 1 + k - n) + 1 * n) by lia.
      rewrite Nat.Div0.mod_add, Nat.mod_small by lia. lia. }
  split; [reflexivity | split].
  - constructor; [| constructor; [set_solver | constructor]].
    intros Hin. apply list_elem_of_In in Hin. simpl in Hin.
    destruct Hin as [Hin | []]. apply Hne. exact Hin.
  - repeat constructor; assumption.
Qed.

Lemma better_spec (h b : option (Point * Q)) :
  (Triangulation.better h b = None -> h = None /\ b = None) /\
  (forall p e, Triangulation.better h b = Some (p, e) ->
     (Some (p, e) = h \/ Some (p, e) = b) /\
     (forall p' e', h = Some (p', e') -> (e <= e')%Q) /\
     (forall p' e', b = Some (p', e') -> (e <= e')%Q)).
Proof.
  destruct h as [[ph eh] |], b as [[pb eb] |]; simpl.
  - destruct (Qle_bool eb eh) eqn:Hq.
    + apply Qle_bool_iff in Hq.
      split; [discriminate |]. intros p e [= <- <-].
      split; [right; reflexivity |].
      split; intros p' e' [= <- <-]; [exact Hq | apply Qle_refl].
    + assert (Hlt : (eh < eb)%Q).
      { apply Qnot_le_lt. intros H. apply Qle_bool_iff in H. congruence. }
      split; [discriminate |]. intros p e [= <- <-].
      split; [left; reflexivity |].
      split; intros p' e' [= <- <-]; [apply Qle_refl | apply Qlt_le_weak; exact Hlt].
  - split; [discriminate |]. intros p e [= <- <-].
    split; [left; reflexivity |]. split; intros p' e' H; [injection H as <- <-; apply Qle_refl | discriminate].
  - split; [discriminate |]. intros p e [= <- <-].
    split; [right; reflexivity |]. split; intros p' e' H; [discriminate | injection H as <- <-; apply Qle_refl].
  - split; [intros _; split; reflexivity | intros p e H; discriminate].
Qed.

Lemma best_fold_spec (track : list Obs) (hs : list (list nat)) (acc : option (Point * Q)) :
  let r := fold_left (fun best idx => Triangulation.better (evaluate track idx) best) hs acc in
  (r = None -> acc = None /\ Forall (fun idx => evaluate track idx = None) hs) /\
  (forall p e, r = Some (p, e) ->
     (r = acc \/ exists idx, idx ∈ hs /\ evaluate track idx = r) /\
     Forall (fun idx => forall p' e', evaluate track idx = Some (p', e') -> (e <= e')%Q) hs /\
     (forall p' e', acc = Some (p', e') -> (e <= e')%Q)).
Proof.
  revert acc. induction hs as [| idx hs IH]; intros acc; simpl.
  - split; [intros H; split; [exact H | constructor] |].
    intros p e H. split; [left; reflexivity |]. split; [constructor |].
    intros p' e' H'. rewrite H in H'. injection H' as <- <-. apply Qle_refl.
  - destruct (IH (Triangulation.better (evaluate track idx) acc)) as [IHn IHs].
    destruct (better_spec (evaluate track idx) acc) as [Bn Bs].
    split.
    + intros Hr. destruct (IHn Hr) as [Hb Hall].
      destruct (Bn Hb) as [He Ha]. split; [exact Ha | constructor; assumption].
    + intros p e Hr. destruct (IHs p e Hr) as [Horig [Hall Hacc]].
      destruct (Triangulation.better (evaluate track idx) acc) as [[pb eb] |] eqn:Hb.
      * destruct (Bs pb eb eq_refl) as [Hfrom [Hh Ha]].
        specialize (Hacc pb eb eq_refl).
        split; [| split].
        -- destruct Horig as [Horig | [idx' [Hin Hev]]].
           ++ destruct Hfrom as [Hfrom | Hfrom].
              ** right. exists idx. split; [set_solver | congruence].
              ** left. congruence.
           ++ right. exists idx'. split; [set_solver | exact Hev].
        -- constructor; [| exact Hall].
           intros p' e' He. eapply Qle_trans; [exact Hacc | exact (Hh p' e' He)].
        -- intros p' e' Hacc'. eapply Qle_trans; [exact Hacc | exact (Ha p' e' Hacc')].
      * destruct (Bn eq_refl) as [He Ha].
        split; [| split].
        -- destruct Horig as [Horig | [idx' [Hin Hev]]].
           ++ congruence.
           ++ right. exists idx'. split; [set_solver | exact Hev].
        -- constructor; [| exact Hall]. intros p' e' Hev. congruence.
        -- intros p' e' Hacc'. congruence.
Qed.

Lemma best_fold_all_degenerate (track : list Obs) (hs : list (list nat))
    (acc : option (Point * Q)) :
  Forall (fun idx => evaluate track idx = None) hs ->
  fold_left (fun best idx => Triangulation.better (evaluate track idx) best) hs acc = acc.
Proof.
  revert acc. induction hs as [| idx hs IH]; intros acc Hall; simpl.
  - reflexivity.
  - apply Forall_cons in Hall as [Hidx Hrest].
    rewrite Hidx. simpl. apply IH. exact Hrest.
Qed.

End TriangulationFacts.

(** C6: for a track with at least [Config.min_track_len] = 2 observations
    and the configured options (at most 100 hypotheses, threshold 100 px):
    every hypothesis is a subset of two distinct observing cameras; at most
    100 hypotheses are evaluated; the kept hypothesis is one of them, is
    scored by the mean reprojection error over all observations of the
    track, and scores no worse than any non-degenerate hypothesis; and the
    track is marked invalid exactly when every hypothesis is degenerate
    (near-parallel rays or cheirality failure) or the best error exceeds
    100. *)
Theorem triangulation_ransac_spec {Obs Point : Type}
    (triangulate : list Obs -> option Point) (reproj_error : Point -> Obs -> Q)
    (track : list Obs) (rs : list (nat * nat)) :
  Config.min_track_len <= length track ->
  let o := Triangulation.configured in
  let hs := Triangulation.hypothesis_subsets o (length track) rs in
  let eval := Triangulation.evaluate triangulate reproj_error track in
  let best := Triangulation.best_hypothesis triangulate reproj_error track hs in
  Forall (fun idx => length idx = 2 /\ NoDup idx /\
                     Forall (fun i => i < length track) idx) hs /\
  length hs <= 100 /\
  match best with
  | None => Forall (fun idx => eval idx = None) hs
  | Some (p, e) =>
      (exists idx, idx ∈ hs /\ eval idx = Some (p, e)) /\
      e = Triangulation.track_error reproj_error track p /\
      Forall (fun idx => forall p' e', eval idx = Some (p', e') -> (e <= e')%Q) hs
  end /\
  ((exists why, Triangulation.triangulate_track triangulate reproj_error o track rs
                = Triangulation.InvalidTrack why) <->
   Forall (fun idx => eval idx = None) hs \/
   (exists p e, best = Some (p, e) /\ (100 < e)%Q)).
Proof.
  intros Hlen o hs eval best.
  unfold Config.min_track_len in Hlen.
  split; [| split; [| split]].
  - apply Forall_forall. intros idx Hin.
    unfold hs, Triangulation.hypothesis_subsets in Hin.
    apply list_elem_of_In, in_map_iff in Hin as [r [<- _]].
    apply sample_pair_distinct. exact Hlen.
  - unfold hs, Triangulation.hypothesis_subsets.
    rewrite length_map, length_take.
    apply Nat.le_min_l.
  - destruct (best_fold_spec triangulate reproj_error track hs None) as [Hn Hs].
    unfold best, Triangulation.best_hypothesis.
    destruct (fold_left _ hs None) as [[p e] |] eqn:Hb.
    + destruct (Hs p e eq_refl) as [[Hr | [idx [Hin Hev]]] [Hall _]];
        [discriminate |].
      split; [exists idx; split; assumption | split; [| exact Hall]].
      unfold eval, Triangulation.evaluate in Hev.
      destruct (triangulate _); [| discriminate].
      injection Hev as <- <-. reflexivity.
    + apply (Hn eq_refl).
  - unfold Triangulation.triangulate_track. fold hs. fold best.
    destruct best as [[p e] |] eqn:Hb.
    + destruct (Qle_bool e (Triangulation.reproj_error_threshold o)) eqn:Hq.
      * apply Qle_bool_iff in Hq. simpl in Hq.
        split.
        -- intros [why Hwhy]; discriminate.
        -- intros [Hall | [p' [e' [He Hlt]]]].
           ++ unfold best in Hb.
              unfold Triangulation.best_hypothesis in Hb.
              rewrite (best_fold_all_degenerate triangulate reproj_error track hs None Hall) in Hb.
              discriminate.
           ++ injection He as <- <-. apply Qlt_not_le in Hlt. contradiction.
      * split.
        -- intros _. right. exists p, e. split; [reflexivity |].
           assert (Hth : Triangulation.reproj_error_threshold o = 100%Q) by reflexivity.
           rewrite Hth in Hq.
           apply Qnot_le_lt. intros H. apply Qle_bool_iff in H. congruence.
        -- intros _. eexists; reflexivity.
    + split.
      * intros _. left.
        destruct (best_fold_spec triangulate reproj_error track hs None) as [Hn _].
        apply (Hn Hb).
      * intros _. eexists; reflexivity.
Qed.


(** Witness of C6 on a three-observation track. *)
Lemma triangulation_ransac_spec_witness :
  Config.min_track_len <= length Demo.track /\
  (let o := Triangulation.configured in
   let hs := Triangulation.hypothesis_subsets o (length Demo.track) Demo.random_stream in
   let eval := Triangulation.evaluate Demo.triangulate Demo.reproj_error Demo.track in
   let best := Triangulation.best_hypothesis Demo.triangulate Demo.reproj_error Demo.track hs in
   Forall (fun idx => length idx = 2 /\ NoDup idx /\
                      Forall (fun i => i < length Demo.track) idx) hs /\
   length hs <= 100 /\
   match best with
   | None => Forall (fun idx => eval idx = None) hs
   | Some (p, e) =>
       (exists idx, idx ∈ hs /\ eval idx = Some (p, e)) /\
       e = Triangulation.track_error Demo.reproj_error Demo.track p /\
       Forall (fun idx => forall p' e', eval idx = Some (p', e') -> (e <= e')%Q) hs
   end /\
   ((exists why, Triangulation.triangulate_track Demo.triangulate Demo.reproj_error o
                   Demo.track Demo.random_stream = Triangulation.InvalidTrack why) <->
    Forall (fun idx => eval idx = None) hs \/
    (exists p e, best = Some (p, e) /\ (100 < e)%Q))).
Proof.
  split.
  - vm_compute. lia.
  - apply triangulation_ransac_spec. vm_compute. lia.
Defined.

(** ** Task scheduling (C5) *)

Lemma step_preserves_deps_done (g : TaskGraph.pipeline) (s s' : TaskGraph.state)
    (ev : TaskGraph.event) :
  TaskGraph.deps_done g s -> TaskGraph.step g s ev = Some s' ->
  TaskGraph.deps_done g s'.
Proof.
  intros Hinv Hstep t d Hd Ht.
  destruct ev as [u | u]; simpl in Hstep.
  - destruct (decide (s u = TaskGraph.Pending)) as [Hp |]; [| discriminate].
    destruct (forallb _ (TaskGraph.deps g u)) eqn:Hall; [| discriminate].
    injection Hstep as <-. unfold TaskGraph.set_status in *.
    destruct (decide (t = u)) as [-> | Htu].
    + rewrite forallb_forall in Hall.
      specialize (Hall d (proj1 (list_elem_of_In _ _) Hd)).
      apply bool_decide_eq_true in Hall.
      destruct (decide (d = u)) as [-> |]; [congruence | exact Hall].
    + specialize (Hinv t d Hd Ht).
      destruct (decide (d = u)) as [-> |]; [congruence | exact Hinv].
  - destruct (decide (s u = TaskGraph.Running)) as [Hr |]; [| discriminate].
    injection Hstep as <-. unfold TaskGraph.set_status in *.
    destruct (decide (d = u)); [reflexivity |].
    destruct (decide (t = u)) as [-> | Htu].
    + apply (Hinv u d Hd). congruence.
    + exact (Hinv t d Hd Ht).
Qed.

Lemma exec_preserves_deps_done (g : TaskGraph.pipeline) (evs : list TaskGraph.event)
    (s s' : TaskGraph.state) :
  TaskGraph.deps_done g s -> TaskGraph.exec g s evs = Some s' ->
  TaskGraph.deps_done g s'.
Proof.
  revert s. induction evs as [| ev evs IH]; intros s Hinv Hexec; simpl in Hexec.
  - injection Hexec as <-. exact Hinv.
  - destruct (TaskGraph.step g s ev) as [s1 |] eqn:Hstep; [| discriminate].
    apply (IH s1); [exact (step_preserves_deps_done g s s1 ev Hinv Hstep) | exact Hexec].
Qed.

(** C5: in every state reached by an execution of the task graph, a
    component's translation averaging that has begun found rotation
    averaging of the same component done, and more generally no task has
    begun before every task whose results it consumes was done. *)
Theorem translation_after_rotation (g : TaskGraph.pipeline)
    (evs : list TaskGraph.event) (s : TaskGraph.state) :
  TaskGraph.exec g TaskGraph.init evs = Some s ->
  (forall c, s (TaskGraph.Stage c TaskGraph.TranslationAveraging) <> TaskGraph.Pending ->
             s (TaskGraph.Stage c TaskGraph.RotationAveraging) = TaskGraph.Done) /\
  TaskGraph.deps_done g s.
Proof.
  intros Hexec.
  assert (Hinv : TaskGraph.deps_done g s).
  { apply (exec_preserves_deps_done g evs TaskGraph.init); [| exact Hexec].
    intros t d _ Ht. exfalso. apply Ht. reflexivity. }
  split; [| exact Hinv].
  intros c Hc. apply (Hinv (TaskGraph.Stage c TaskGraph.TranslationAveraging)); [| exact Hc].
  simpl. apply list_elem_of_here.
Qed.

(** Witness of C5 on an execution that reaches translation averaging. *)
Lemma translation_after_rotation_witness :
  TaskGraph.exec Demo.pipeline TaskGraph.init Demo.events = Some Demo.final_state /\
  (forall c, Demo.final_state (TaskGraph.Stage c TaskGraph.TranslationAveraging)
               <> TaskGraph.Pending ->
             Demo.final_state (TaskGraph.Stage c TaskGraph.RotationAveraging)
               = TaskGraph.Done) /\
  TaskGraph.deps_done Demo.pipeline Demo.final_state.
Proof.
  split; [vm_compute; reflexivity |].
  apply (translation_after_rotation Demo.pipeline Demo.events).
  vm_compute. reflexivity.
Defined.

(** ** Cache wrappers (C8) *)

Section CacherFacts.

Context {Input Output K : Type} `{Countable K}.
Variable compute : Input -> Output.
Variable cache_key : Input -> K.

Lemma cached_run_consistent (cache : gmap K Output) (x : Input) :
  (forall x y, cache_key x = cache_key y -> compute x = compute y) ->
  Cacher.cache_consistent compute cache_key cache ->
  (Cacher.cached_run compute cache_key cache x).1 = compute x /\
  Cacher.cache_consistent compute cache_key (Cacher.cached_run compute cache_key cache x).2.
Proof.
  intros Hkey Hc. unfold Cacher.cached_run.
  destruct (cache !! cache_key x) as [y |] eqn:Hl; simpl.
  - split; [| exact Hc].
    destruct (Hc _ _ Hl) as [x' [Hk ->]]. apply Hkey. exact Hk.
  - split; [reflexivity |].
    apply map_Forall_insert_2; [exists x; split; reflexivity | exact Hc].
Qed.

Lemma run_all_consistent (cache : gmap K Output) (xs : list Input) :
  (forall x y, cache_key x = cache_key y -> compute x = compute y) ->
  Cacher.cache_consistent compute cache_key cache ->
  (Cacher.run_all compute cache_key cache xs).1 = map compute xs.
Proof.
  intros Hkey. revert cache. induction xs as [| x xs IH]; intros cache Hc; simpl.
  - reflexivity.
  - destruct (cached_run_consistent cache x Hkey Hc) as [Hy Hc1].
    destruct (Cacher.cached_run compute cache_key cache x) as [y cache1].
    simpl in Hy, Hc1. specialize (IH cache1 Hc1).
    destruct (Cacher.run_all compute cache_key cache1 xs) as [ys cache2].
    simpl in *. congruence.
Qed.

End CacherFacts.

Lemma matcher_key_stable {Output : Type}
    (compute : list (Z * Z) * list (Z * Z) * (nat * nat) * (nat * nat) * Q -> Output) :
  forall x y, Cacher.matcher_key x = Cacher.matcher_key y -> compute x = compute y.
Proof.
  intros [[[[k1 k2] s1] s2] [n d]] [[[[k1' k2'] s1'] s2'] [n' d']] Hk.
  unfold Cacher.matcher_key in Hk; simpl in Hk.
  injection Hk as -> -> -> -> -> ->. reflexivity.
Qed.

(** C8: when the cache key identifies the input (equal keys only for
    inputs the wrapped computation cannot tell apart, as for image content
    plus configuration), the cacher returns the wrapped computation's
    result on every call: a single call on a consistent store returns it
    whether the key hits or misses and leaves the store consistent, and
    any sequence of calls from the empty store returns exactly the direct
    recomputations. *)
Theorem cacher_equivalent {Input Output K : Type} `{Countable K}
    (compute : Input -> Output) (cache_key : Input -> K) :
  (forall x y, cache_key x = cache_key y -> compute x = compute y) ->
  (forall cache x, Cacher.cache_consistent compute cache_key cache ->
     (Cacher.cached_run compute cache_key cache x).1 = compute x) /\
  (forall xs, (Cacher.run_all compute cache_key ∅ xs).1 = map compute xs).
Proof.
  intros Hkey. split.
  - intros cache x Hc. exact (proj1 (cached_run_consistent compute cache_key cache x Hkey Hc)).
  - intros xs. apply run_all_consistent; [exact Hkey | apply map_Forall_empty].
Qed.

(** Witness of C8 for the detector-descriptor cacher, keyed by image and
    configuration. *)
Lemma cacher_equivalent_witness :
  (forall x y, Cacher.detector_key x = Cacher.detector_key y -> Demo.detect x = Demo.detect y) /\
  (forall cache x, Cacher.cache_consistent Demo.detect Cacher.detector_key cache ->
     (Cacher.cached_run Demo.detect Cacher.detector_key cache x).1 = Demo.detect x) /\
  (forall xs, (Cacher.run_all Demo.detect Cacher.detector_key ∅ xs).1 = map Demo.detect xs).
Proof.
  assert (Hkey : forall x y, Cacher.detector_key x = Cacher.detector_key y ->
                             Demo.detect x = Demo.detect y).
  { intros x y Hk. unfold Cacher.detector_key in Hk. rewrite Hk. reflexivity. }
  split; [exact Hkey |].
  apply (cacher_equivalent Demo.detect Cacher.detector_key Hkey).
Defined.

(** ** Gauge invariance of rotation averaging (C1) *)

Section Gauge.

Context {Rot3 : Type}.
Variable mul : Rot3 -> Rot3 -> Rot3.
Variable inv : Rot3 -> Rot3.
Variable one : Rot3.
Variable angle : Rot3 -> Q.

Hypothesis mul_assoc : forall a b c, mul a (mul b c) = mul (mul a b) c.
Hypothesis mul_one_l : forall a, mul one a = a.
Hypothesis mul_one_r : forall a, mul a one = a.
Hypothesis mul_inv_l : forall a, mul (inv a) a = one.
Hypothesis mul_inv_r : forall a, mul a (inv a) = one.
(** The angle of a rotation does not depend on the frame it is
    expressed in. *)
Hypothesis angle_conj : forall g x, angle (mul (mul g x) (inv g)) = angle x.

Lemma inv_unique (a b : Rot3) : mul a b = one -> inv a = b.
Proof.
  intros Hab.
  rewrite <- (mul_one_r (inv a)), <- Hab, mul_assoc, mul_inv_l, mul_one_l.
  reflexivity.
Qed.

Lemma inv_mul (a b : Rot3) : inv (mul a b) = mul (inv b) (inv a).
Proof.
  apply inv_unique.
  rewrite <- mul_assoc, (mul_assoc b), mul_inv_r, mul_one_l, mul_inv_r.
  reflexivity.
Qed.

Lemma inv_inv (a : Rot3) : inv (inv a) = a.
Proof. apply inv_unique. apply mul_inv_l. Qed.

(** Relative rotations of regauged cameras are conjugated. *)
Lemma regauge_relative (g Ri Rj : Rot3) :
  mul (inv (mul Ri (inv g))) (mul Rj (inv g)) = mul (mul g (mul (inv Ri) Rj)) (inv g).
Proof.
  rewrite inv_mul, inv_inv.
  rewrite <- !mul_assoc. reflexivity.
Qed.

Lemma discrepancy_regauge (g M Ri Rj : Rot3) :
  RotAvg.discrepancy mul inv angle (mul (mul g M) (inv g)) (mul Ri (inv g)) (mul Rj (inv g))
  = RotAvg.discrepancy mul inv angle M Ri Rj.
Proof.
  unfold RotAvg.discrepancy.
  rewrite regauge_relative, !inv_mul, inv_inv.
  replace (mul (mul g (inv M)) (inv g)) with (mul g (mul (inv M) (inv g)))
    by apply mul_assoc.
  rewrite <- (angle_conj g (mul (inv M) (mul (inv Ri) Rj))).
  f_equal.
  rewrite <- !mul_assoc. f_equal. f_equal.
  rewrite (mul_assoc (inv g) g), mul_inv_l, mul_one_l.
  rewrite !mul_assoc. reflexivity.
Qed.

Lemma cost_regauge (g : Rot3) (es : list ((nat * nat) * Rot3)) (R : nat -> Rot3) :
  RotAvg.cost mul inv angle (RotAvg.conjugate_edges mul inv g es) (RotAvg.regauge mul inv g R)
  = RotAvg.cost mul inv angle es R.
Proof.
  unfold RotAvg.cost, RotAvg.conjugate_edges, RotAvg.regauge.
  induction es as [| [[i j] M] es IH]; simpl; [reflexivity |].
  rewrite IH, discrepancy_regauge. reflexivity.
Qed.

Lemma cost_ext (es : list ((nat * nat) * Rot3)) (R R' : nat -> Rot3) :
  (forall i, R i = R' i) -> RotAvg.cost mul inv angle es R = RotAvg.cost mul inv angle es R'.
Proof.
  intros Hext. unfold RotAvg.cost.
  induction es as [| [[i j] M] es IH]; simpl; [reflexivity |].
  rewrite IH, !Hext. reflexivity.
Qed.

(** Regauging by [g] is undone by regauging by [inv g]. *)
Lemma regauge_back (g : Rot3) (R : nat -> Rot3) (i : nat) :
  RotAvg.regauge mul inv g (RotAvg.regauge mul inv (inv g) R) i = R i.
Proof.
  unfold RotAvg.regauge. rewrite inv_inv, <- mul_assoc, mul_inv_r, mul_one_r.
  reflexivity.
Qed.

End Gauge.

(** C1: rotation averaging is invariant to the global gauge.  Over any
    rotation group whose angle is frame-independent, for every edge set,
    global rotation [g] and per-camera rotations [R]: [R] solves rotation
    averaging for the edges exactly when [R_i * g^-1] (every camera moved
    by the same global rotation) solves it for the edges with every
    relative rotation conjugated by [g]; and the angle between any two
    output rotations is the same before and after. *)
Theorem rotation_averaging_gauge_invariant {Rot3 : Type}
    (mul : Rot3 -> Rot3 -> Rot3) (inv : Rot3 -> Rot3) (one : Rot3) (angle : Rot3 -> Q)
    (mul_assoc : forall a b c, mul a (mul b c) = mul (mul a b) c)
    (mul_one_l : forall a, mul one a = a)
    (mul_one_r : forall a, mul a one = a)
    (mul_inv_l : forall a, mul (inv a) a = one)
    (mul_inv_r : forall a, mul a (inv a) = one)
    (angle_conj : forall g x, angle (mul (mul g x) (inv g)) = angle x)
    (es : list ((nat * nat) * Rot3)) (g : Rot3) (R : nat -> Rot3) :
  (RotAvg.is_minimizer mul inv angle es R <->
   RotAvg.is_minimizer mul inv angle (RotAvg.conjugate_edges mul inv g es)
     (RotAvg.regauge mul inv g R)) /\
  (forall i j, angle (mul (inv (RotAvg.regauge mul inv g R i)) (RotAvg.regauge mul inv g R j))
               = angle (mul (inv (R i)) (R j))).
Proof.
  pose proof (cost_regauge mul inv one angle mul_assoc mul_one_l mul_one_r mul_inv_l
                mul_inv_r angle_conj) as Hcost.
  pose proof (regauge_back mul inv one mul_assoc mul_one_l mul_one_r mul_inv_l
                mul_inv_r) as Hback.
  split.
  - unfold RotAvg.is_minimizer. split.
    + intros Hmin R'.
      rewrite Hcost.
      rewrite (cost_ext mul inv angle _ R' (RotAvg.regauge mul inv g
                                              (RotAvg.regauge mul inv (inv g) R')))
        by (intros i; symmetry; apply Hback).
      rewrite Hcost. apply Hmin.
    + intros Hmin R'.
      rewrite <- (Hcost g es R), <- (Hcost g es R'). apply Hmin.
  - intros i j. unfold RotAvg.regauge.
    rewrite (regauge_relative mul inv one mul_assoc mul_one_l mul_one_r mul_inv_l mul_inv_r).
    apply angle_conj.
Qed.


(** Witness of C1 on the permutation group of three axes, with a
    two-edge view graph. *)
Lemma rotation_averaging_gauge_invariant_witness :
  (forall a b c, RotAvg.perm3_mul a (RotAvg.perm3_mul b c)
                 = RotAvg.perm3_mul (RotAvg.perm3_mul a b) c) /\
  (forall a, RotAvg.perm3_mul RotAvg.P012 a = a) /\
  (forall a, RotAvg.perm3_mul a RotAvg.P012 = a) /\
  (forall a, RotAvg.perm3_mul (RotAvg.perm3_inv a) a = RotAvg.P012) /\
  (forall a, RotAvg.perm3_mul a (RotAvg.perm3_inv a) = RotAvg.P012) /\
  (forall g x, RotAvg.perm3_angle (RotAvg.perm3_mul (RotAvg.perm3_mul g x) (RotAvg.perm3_inv g))
               = RotAvg.perm3_angle x) /\
  let es := [((0, 1), RotAvg.P120); ((1, 2), RotAvg.P021)] in
  let R := fun i => match i with 0 => RotAvg.P012 | 1 => RotAvg.P120 | _ => RotAvg.P210 end in
  (RotAvg.is_minimizer RotAvg.perm3_mul RotAvg.perm3_inv RotAvg.perm3_angle es R <->
   RotAvg.is_minimizer RotAvg.perm3_mul RotAvg.perm3_inv RotAvg.perm3_angle
     (RotAvg.conjugate_edges RotAvg.perm3_mul RotAvg.perm3_inv RotAvg.P102 es)
     (RotAvg.regauge RotAvg.perm3_mul RotAvg.perm3_inv RotAvg.P102 R)) /\
  (forall i j,
     RotAvg.perm3_angle
       (RotAvg.perm3_mul (RotAvg.perm3_inv (RotAvg.regauge RotAvg.perm3_mul RotAvg.perm3_inv RotAvg.P102 R i))
          (RotAvg.regauge RotAvg.perm3_mul RotAvg.perm3_inv RotAvg.P102 R j))
     = RotAvg.perm3_angle (RotAvg.perm3_mul (RotAvg.perm3_inv (R i)) (R j))).
Proof.
  assert (Hassoc : forall a b c, RotAvg.perm3_mul a (RotAvg.perm3_mul b c)
                                 = RotAvg.perm3_mul (RotAvg.perm3_mul a b) c)
    by (intros [] [] []; reflexivity).
  assert (Hl : forall a, RotAvg.perm3_mul RotAvg.P012 a = a) by (intros []; reflexivity).
  assert (Hr : forall a, RotAvg.perm3_mul a RotAvg.P012 = a) by (intros []; reflexivity).
  assert (Hil : forall a, RotAvg.perm3_mul (RotAvg.perm3_inv a) a = RotAvg.P012)
    by (intros []; reflexivity).
  assert (Hir : forall a, RotAvg.perm3_mul a (RotAvg.perm3_inv a) = RotAvg.P012)
    by (intros []; reflexivity).
  assert (Hang : forall g x, RotAvg.perm3_angle (RotAvg.perm3_mul (RotAvg.perm3_mul g x)
                                                   (RotAvg.perm3_inv g))
                             = RotAvg.perm3_angle x)
    by (intros [] []; reflexivity).
  do 6 (split; [assumption |]).
  apply (rotation_averaging_gauge_invariant RotAvg.perm3_mul RotAvg.perm3_inv RotAvg.P012
           RotAvg.perm3_angle Hassoc Hl Hr Hil Hir Hang).
Defined.

(** ** Output shape of rotation averaging (C10) *)

Lemma union_cameras_touched {Rot3 : Type} (all es : list ((nat * nat) * Rot3))
    (cs : list (list nat)) (i : nat) :
  (forall e, e ∈ es -> e ∈ all) ->
  (forall c, c ∈ cs -> i ∈ c -> exists i1 i2 r, ((i1, i2), r) ∈ all /\ (i = i1 \/ i = i2)) ->
  forall c, c ∈ fold_left RotAvg.union_cameras es cs -> i ∈ c ->
  exists i1 i2 r, ((i1, i2), r) ∈ all /\ (i = i1 \/ i = i2).
Proof.
  revert cs. induction es as [| [[a b] r] es IH]; intros cs Hsub Hcs; cbn [fold_left].
  - exact Hcs.
  - assert (Hab : ((a, b), r) ∈ all) by (apply Hsub; left).
    apply IH; [intros e He; apply Hsub; right; exact He |].
    intros c Hc Hi. unfold RotAvg.union_cameras in Hc.
    apply elem_of_cons in Hc as [-> | Hc].
    + rewrite elem_of_remove_dups in Hi.
      apply elem_of_cons in Hi as [-> | Hi].
      { exists a, b, r. split; [exact Hab | left; reflexivity]. }
      apply elem_of_cons in Hi as [-> | Hi].
      { exists a, b, r. split; [exact Hab | right; reflexivity]. }
      apply list_elem_of_In, in_concat in Hi as [c' [Hc' Hi]].
      apply list_elem_of_In in Hc', Hi.
      apply list_elem_of_filter in Hc' as [_ Hc'].
      exact (Hcs c' Hc' Hi).
    + apply list_elem_of_filter in Hc as [_ Hc].
      exact (Hcs c Hc Hi).
Qed.

Lemma lookup_map {A B : Type} (f : A -> B) (l : list A) (i : nat) :
  map f l !! i = f <$> l !! i.
Proof.
  revert i. induction l as [| x l IH]; intros [| i]; simpl; [reflexivity .. | apply IH].
Qed.

(** C10: [run] called with a camera count [N] returns a list of exactly
    [N] entries, one per camera index, and the entry of every index below
    [N] that no input edge touches is present and holds the no-result
    value. *)
Theorem rotation_averaging_output_shape {Rot3 : Type}
    (solve : list ((nat * nat) * Rot3) -> option (nat -> Rot3))
    (num_images : nat) (i2Ri1_dict : list ((nat * nat) * Rot3)) :
  length (RotAvg.run solve num_images i2Ri1_dict) = num_images /\
  (forall i, i < num_images ->
     (forall i1 i2 r, ((i1, i2), r) ∈ i2Ri1_dict -> i <> i1 /\ i <> i2) ->
     RotAvg.run solve num_images i2Ri1_dict !! i = Some None).
Proof.
  unfold RotAvg.run. split.
  - rewrite length_map, length_seq. reflexivity.
  - intros i Hi Hiso.
    rewrite lookup_map, lookup_seq_lt by exact Hi. simpl. f_equal.
    unfold RotAvg.camera_rotation.
    assert (Hnone : list_find (fun c => i ∈ c) (RotAvg.components i2Ri1_dict) = None).
    { apply list_find_None. apply Forall_forall. intros c Hc Hic.
      destruct (union_cameras_touched i2Ri1_dict i2Ri1_dict [] i (fun e He => He)
                  ltac:(intros c' Hc'; inversion Hc') c Hc Hic)
        as [i1 [i2 [r [Hin Heq]]]].
      destruct (Hiso i1 i2 r Hin). destruct Heq; contradiction. }
    rewrite Hnone. reflexivity.
Qed.

(** Witness of C10: four cameras, one edge between cameras 0 and 1, a
    solver that always converges; camera 3 is untouched. *)
Lemma rotation_averaging_output_shape_witness :
  3 < 4 /\
  (forall i1 i2 r, ((i1, i2), r) ∈ [((0, 1), RotAvg.P120)] -> 3 <> i1 /\ 3 <> i2) /\
  length (RotAvg.run (fun _ => Some (fun _ => RotAvg.P012)) 4 [((0, 1), RotAvg.P120)]) = 4 /\
  RotAvg.run (fun _ => Some (fun _ => RotAvg.P012)) 4 [((0, 1), RotAvg.P120)] !! 3 = Some None.
Proof.
  assert (Hiso : forall i1 i2 r, ((i1, i2), r) ∈ [((0, 1), RotAvg.P120)] -> 3 <> i1 /\ 3 <> i2).
  { intros i1 i2 r Hin. apply list_elem_of_singleton in Hin. injection Hin as -> -> ->.
    split; discriminate. }
  destruct (rotation_averaging_output_shape (fun _ => Some (fun _ => RotAvg.P012)) 4
              [((0, 1), RotAvg.P120)]) as [Hlen Hnone].
  split; [lia |]. split; [exact Hiso |]. split; [exact Hlen |].
  apply Hnone; [lia | exact Hiso].
Defined.

Example run_touched_cameras :
  RotAvg.run (fun _ => Some (fun _ => RotAvg.P012)) 4 [((0, 1), RotAvg.P120)]
  = [Some RotAvg.P012; Some RotAvg.P012; None; None].
Proof. reflexivity. Qed.

(** ** RANSAC verification results (C9) *)

(** C9 fails as stated: on a pair with three matches (fewer than the eight
    the fundamental-matrix solver of the notebook's verifier needs), even
    an estimator that always succeeds is not consulted, and [verify]
    returns the verification-failure entries: no rotation and no
    direction. *)
Lemma ransac_verify_counterexample :
  Verifier.verify Demo.always_estimate Demo.notebook_ransac tt tt
    [(0, 0); (1, 1); (2, 2)] tt tt = (None, None, [], 0%Q).
Proof. reflexivity. Qed.

(** C9 (amended): [verify] always returns the four results; the rotation
    and the direction are present together, the direction is then a unit
    vector, and otherwise both are the no-result value, as they are
    whenever the pair has fewer matches than the minimal solver needs. *)
Theorem ransac_verify_results {Rot3 Keypoints Calibration : Type}
    (estimate : Verifier.Ransac -> Keypoints -> Keypoints -> list (nat * nat)
                -> Calibration -> Calibration -> option (Rot3 * Verifier.Unit3 * list (nat * nat)))
    (r : Verifier.Ransac) (keypoints_i1 keypoints_i2 : Keypoints)
    (match_indices : list (nat * nat)) (intr1 intr2 : Calibration) :
  let '(i2Ri1, i2Ui1, _, _) :=
    Verifier.verify estimate r keypoints_i1 keypoints_i2 match_indices intr1 intr2 in
  ((exists R U, i2Ri1 = Some R /\ i2Ui1 = Some U /\
      Qeq_bool (Verifier.ux U * Verifier.ux U + Verifier.uy U * Verifier.uy U
                + Verifier.uz U * Verifier.uz U) 1 = true) \/
   (i2Ri1 = None /\ i2Ui1 = None)) /\
  (length match_indices < Verifier.min_num_matches r -> i2Ri1 = None /\ i2Ui1 = None).
Proof.
  unfold Verifier.verify.
  destruct (Nat.ltb_spec (length match_indices) (Verifier.min_num_matches r)) as [Hlt | Hge].
  - split; [right; split; reflexivity | intros _; split; reflexivity].
  - destruct (estimate r keypoints_i1 keypoints_i2 match_indices intr1 intr2)
      as [[[R U] inliers] |].
    + split; [left; exists R, U; split; [reflexivity | split; [reflexivity |]] | lia].
      apply Verifier.unit_norm.
    + split; [right; split; reflexivity | lia].
Qed.

(* ================================================================== *)
(** ** The exploration notebook *)

Lemma in_range_spec (a b x : nat) :
  Notebook.in_range a b x = true <-> a <= x < b.
Proof.
  unfold Notebook.in_range. rewrite andb_true_iff, Nat.leb_le, Nat.ltb_lt. reflexivity.
Qed.

(** A pair is in cell 12's [subset_pair_indices] when it is an input pair
    with both images in [range(300, 320)]. *)
Lemma subset_pair_indices_elem (image_pair_indices : list (nat * nat)) (i1 i2 : nat) :
  (i1, i2) ∈ Notebook.subset_pair_indices image_pair_indices <->
  (i1, i2) ∈ image_pair_indices /\ 300 <= i1 < 320 /\ 300 <= i2 < 320.
Proof.
  unfold Notebook.subset_pair_indices.
  rewrite list_elem_of_filter, Is_true_true, andb_true_iff, !in_range_spec.
  unfold Notebook.image_indices_start, Notebook.image_indices_stop. simpl.
  tauto.
Qed.

Section HeapFacts.

Context {Rot3 : Type}.
Variable prior_rotation : nat -> nat -> Rot3.

Lemma overwrite_pairs_lookup (h : gmap nat (gmap (nat * nat) Rot3)) (l : nat)
    (d : gmap (nat * nat) Rot3) (pairs : list (nat * nat)) :
  h !! l = Some d ->
  exists d', Notebook.overwrite_pairs prior_rotation h l pairs = Some (<[l := d']> h) /\
    forall k, d' !! k = if decide (k ∈ pairs) then Some (prior_rotation k.1 k.2) else d !! k.
Proof.
  revert h d. induction pairs as [| [i1 i2] pairs IH]; intros h d Hl; simpl.
  - exists d. split; [rewrite insert_id by exact Hl; reflexivity |].
    intros k. reflexivity.
  - unfold Notebook.py_setitem. rewrite Hl.
    destruct (IH (<[l := <[(i1, i2) := prior_rotation i1 i2]> d]> h)
                 (<[(i1, i2) := prior_rotation i1 i2]> d)) as [d' [Hrun Hd']];
      [apply lookup_insert_eq |].
    exists d'. split; [rewrite Hrun, insert_insert_eq; reflexivity |].
    intros k. rewrite Hd'.
    destruct (decide (k ∈ pairs)) as [Hk | Hk].
    + rewrite decide_True by (apply elem_of_cons; right; exact Hk). reflexivity.
    + destruct (decide (k = (i1, i2))) as [-> | Hne].
      * rewrite decide_True by (apply elem_of_cons; left; reflexivity).
        apply lookup_insert_eq.
      * rewrite decide_False by (rewrite elem_of_cons; tauto).
        apply lookup_insert_ne. congruence.
Qed.

Lemma cell20_spec (h : gmap nat (gmap (nat * nat) Rot3)) (l_dict : nat) (D : gmap (nat * nat) Rot3)
    (hacked_pairs : list (nat * nat)) :
  h !! l_dict = Some D ->
  exists l_hacked D',
    Notebook.cell20 prior_rotation h l_dict hacked_pairs
      = Some (l_hacked, <[l_hacked := D']> (<[l_hacked := D]> h)) /\
    h !! l_hacked = None /\
    forall k, D' !! k = if decide (k ∈ hacked_pairs)
                        then Some (prior_rotation k.1 k.2) else D !! k.
Proof.
  intros Hl. unfold Notebook.cell20, Notebook.py_dict_copy. rewrite Hl.
  set (l' := fresh (dom h)).
  assert (Hfresh : h !! l' = None) by (apply not_elem_of_dom, is_fresh).
  destruct (overwrite_pairs_lookup (<[l' := D]> h) l' D hacked_pairs)
    as [D' [Hrun HD']]; [apply lookup_insert_eq |].
  exists l', D'. rewrite Hrun. split; [reflexivity |]. split; assumption.
Qed.

End HeapFacts.

(** X2: cell 20 ([i2Ri1_input_hacked = dict(i2Ri1_dict)] followed by the
    overwrites) puts the hacked dictionary in a new object and leaves
    [i2Ri1_dict] and every other object unchanged. *)
Theorem cell20_leaves_original {Rot3 : Type} (prior_rotation : nat -> nat -> Rot3)
    (h : gmap nat (gmap (nat * nat) Rot3)) (l_dict : nat) (D : gmap (nat * nat) Rot3)
    (hacked_pairs : list (nat * nat)) :
  h !! l_dict = Some D ->
  exists l_hacked h',
    Notebook.cell20 prior_rotation h l_dict hacked_pairs = Some (l_hacked, h') /\
    h !! l_hacked = None /\ l_hacked <> l_dict /\
    h' !! l_dict = Some D /\
    forall l, l <> l_hacked -> h' !! l = h !! l.
Proof.
  intros Hl.
  destruct (cell20_spec prior_rotation h l_dict D hacked_pairs Hl)
    as [l' [D' [Hrun [Hfresh _]]]].
  exists l', (<[l' := D']> (<[l' := D]> h)).
  assert (Hne : l' <> l_dict) by congruence.
  split; [exact Hrun |]. split; [exact Hfresh |]. split; [exact Hne |].
  split.
  - rewrite !lookup_insert_ne by congruence. exact Hl.
  - intros l Hl'. rewrite !lookup_insert_ne by congruence. reflexivity.
Qed.

Lemma cell20_leaves_original_witness :
  Demo.heap0 !! 0
    = Some Demo.i2Ri1_dict /\
  exists l_hacked h',
    Notebook.cell20 Demo.prior
      Demo.heap0 0
      Notebook.hacked_pairs = Some (l_hacked, h') /\
    Demo.heap0 !! l_hacked = None /\
    l_hacked <> 0 /\
    h' !! 0 = Some Demo.i2Ri1_dict /\
    forall l, l <> l_hacked ->
      h' !! l = Demo.heap0 !! l.
Proof.
  split; [reflexivity |].
  apply (cell20_leaves_original Demo.prior). reflexivity.
Defined.

(** X3: in the hacked dictionary built by cell 20, a pair of
    [hacked_pairs] maps to the prior's relative rotation, whatever
    [i2Ri1_dict] held for it; every other pair keeps its value of
    [i2Ri1_dict], present or absent. *)
Theorem cell20_hacked_contents {Rot3 : Type} (prior_rotation : nat -> nat -> Rot3)
    (h : gmap nat (gmap (nat * nat) Rot3)) (l_dict : nat) (D : gmap (nat * nat) Rot3)
    (hacked_pairs : list (nat * nat)) :
  h !! l_dict = Some D ->
  exists l_hacked h' D',
    Notebook.cell20 prior_rotation h l_dict hacked_pairs = Some (l_hacked, h') /\
    h' !! l_hacked = Some D' /\
    (forall i1 i2, (i1, i2) ∈ hacked_pairs -> D' !! (i1, i2) = Some (prior_rotation i1 i2)) /\
    (forall k, k ∉ hacked_pairs -> D' !! k = D !! k).
Proof.
  intros Hl.
  destruct (cell20_spec prior_rotation h l_dict D hacked_pairs Hl)
    as [l' [D' [Hrun [_ HD']]]].
  exists l', (<[l' := D']> (<[l' := D]> h)), D'.
  split; [exact Hrun |]. split; [apply lookup_insert_eq |]. split.
  - intros i1 i2 Hin. rewrite HD', decide_True by exact Hin. reflexivity.
  - intros k Hk. rewrite HD', decide_False by exact Hk. reflexivity.
Qed.

Lemma cell20_hacked_contents_witness :
  Demo.heap0 !! 0
    = Some Demo.i2Ri1_dict /\
  exists l_hacked h' D',
    Notebook.cell20 Demo.prior
      Demo.heap0 0
      Notebook.hacked_pairs = Some (l_hacked, h') /\
    h' !! l_hacked = Some D' /\
    (forall i1 i2, (i1, i2) ∈ Notebook.hacked_pairs -> D' !! (i1, i2) = Some (Demo.prior i1 i2)) /\
    (forall k, k ∉ Notebook.hacked_pairs ->
       D' !! k = Demo.i2Ri1_dict !! k).
Proof.
  split; [reflexivity |].
  apply (cell20_hacked_contents Demo.prior). reflexivity.
Defined.

Lemma wRi_shonan_length {Rot3 : Type}
    (solve : list ((nat * nat) * Rot3) -> option (nat -> Rot3))
    (N : nat) (es : list ((nat * nat) * Rot3)) :
  length (Notebook.wRi_shonan solve N es) = Nat.min 20 (N - 300).
Proof.
  unfold Notebook.wRi_shonan, Notebook.py_slice, RotAvg.run.
  rewrite length_take, length_drop, length_map, length_seq. reflexivity.
Qed.

Lemma wRi_shonan_lookup {Rot3 : Type}
    (solve : list ((nat * nat) * Rot3) -> option (nat -> Rot3))
    (N : nat) (es : list ((nat * nat) * Rot3)) (k : nat) :
  k < Nat.min 20 (N - 300) ->
  Notebook.wRi_shonan solve N es !! k = Some (RotAvg.camera_rotation solve es (300 + k)).
Proof.
  intros Hk. unfold Notebook.wRi_shonan, Notebook.py_slice, RotAvg.run.
  replace (320 - 300) with 20 by reflexivity.
  rewrite lookup_take_lt by lia. rewrite lookup_drop, lookup_map, lookup_seq_lt by lia.
  reflexivity.
Qed.

(** X4: [wRi_shonan] (cell 21, [shonan.run(N, ...)[300:320]]) has
    [min(20, N - 300)] entries, and its entry [k] is the run's result for
    camera [300 + k]: with fewer than 320 cameras the slice is silently
    shorter. *)
Theorem wRi_shonan_slice {Rot3 : Type}
    (solve : list ((nat * nat) * Rot3) -> option (nat -> Rot3))
    (N : nat) (es : list ((nat * nat) * Rot3)) :
  length (Notebook.wRi_shonan solve N es) = Nat.min 20 (N - 300) /\
  forall k, k < length (Notebook.wRi_shonan solve N es) ->
    Notebook.wRi_shonan solve N es !! k = Some (RotAvg.camera_rotation solve es (300 + k)).
Proof.
  split; [apply wRi_shonan_length |].
  intros k Hk. rewrite wRi_shonan_length in Hk. apply wRi_shonan_lookup. exact Hk.
Qed.

Lemma wRi_shonan_getitem {Rot3 : Type}
    (solve : list ((nat * nat) * Rot3) -> option (nat -> Rot3))
    (N : nat) (es : list ((nat * nat) * Rot3)) (i : nat) :
  320 <= N ->
  Notebook.py_getitem (Notebook.wRi_shonan solve N es) (Z.of_nat i - 300)
    = if i <? 280 then None
      else if i <? 300 then Some (RotAvg.camera_rotation solve es (i + 20))
      else if i <? 320 then Some (RotAvg.camera_rotation solve es i)
      else None.
Proof.
  intros HN. pose proof (wRi_shonan_length solve N es) as Hlen.
  replace (Nat.min 20 (N - 300)) with 20 in Hlen by lia.
  unfold Notebook.py_getitem. rewrite Hlen.
  destruct (Z.ltb_spec (Z.of_nat i - 300) 0) as [Hneg | Hpos].
  - destruct (Z.ltb_spec (Z.of_nat 20 + (Z.of_nat i - 300)) 0) as [Hout | Hin].
    + replace (i <? 280) with true by (symmetry; apply Nat.ltb_lt; lia). reflexivity.
    + replace (i <? 280) with false by (symmetry; apply Nat.ltb_ge; lia).
      replace (i <? 300) with true by (symmetry; apply Nat.ltb_lt; lia).
      replace (Z.to_nat (Z.of_nat 20 + (Z.of_nat i - 300))) with (i - 280) by lia.
      rewrite wRi_shonan_lookup by lia. do 2 f_equal. lia.
  - replace (i <? 280) with false by (symmetry; apply Nat.ltb_ge; lia).
    replace (i <? 300) with false by (symmetry; apply Nat.ltb_ge; lia).
    replace (Z.to_nat (Z.of_nat i - 300)) with (i - 300) by lia.
    destruct (Nat.ltb_spec i 320) as [Hlt | Hge].
    + rewrite wRi_shonan_lookup by lia. do 2 f_equal. lia.
    + apply lookup_ge_None_2. rewrite Hlen. lia.
Qed.

(** X5: in cell 23, for every pair of the image subset of cell 12 and a
    run over at least 320 cameras, [wRi_shonan[i2-300].between(wRi_shonan[i1-300])]
    reads the run's rotations of cameras [i2] and [i1] themselves: the
    index arithmetic never leaves the slice; it raises only when one of the
    two cameras has no rotation. *)
Theorem cell23_subset_pairs {Rot3 : Type} (mul : Rot3 -> Rot3 -> Rot3) (inv : Rot3 -> Rot3)
    (solve : list ((nat * nat) * Rot3) -> option (nat -> Rot3))
    (N : nat) (es : list ((nat * nat) * Rot3))
    (image_pair_indices : list (nat * nat)) (i1 i2 : nat) :
  (i1, i2) ∈ Notebook.subset_pair_indices image_pair_indices ->
  320 <= N ->
  Notebook.cell23_i2Ri1_shonan mul inv (Notebook.wRi_shonan solve N es) i1 i2
    = match RotAvg.camera_rotation solve es i2, RotAvg.camera_rotation solve es i1 with
      | Some a, Some b => Some (Notebook.between mul inv a b)
      | _, _ => None
      end.
Proof.
  intros Hin HN.
  apply subset_pair_indices_elem in Hin as [_ [Hi1 Hi2]].
  unfold Notebook.cell23_i2Ri1_shonan. rewrite !wRi_shonan_getitem by exact HN.
  replace (i1 <? 280) with false by (symmetry; apply Nat.ltb_ge; lia).
  replace (i1 <? 300) with false by (symmetry; apply Nat.ltb_ge; lia).
  replace (i1 <? 320) with true by (symmetry; apply Nat.ltb_lt; lia).
  replace (i2 <? 280) with false by (symmetry; apply Nat.ltb_ge; lia).
  replace (i2 <? 300) with false by (symmetry; apply Nat.ltb_ge; lia).
  replace (i2 <? 320) with true by (symmetry; apply Nat.ltb_lt; lia).
  destruct (RotAvg.camera_rotation solve es i2), (RotAvg.camera_rotation solve es i1);
    reflexivity.
Qed.

Lemma cell23_subset_pairs_witness :
  (301, 302) ∈ Notebook.subset_pair_indices [(301, 302); (1, 302)] /\ 320 <= 320 /\
  Notebook.cell23_i2Ri1_shonan RotAvg.perm3_mul RotAvg.perm3_inv
    (Notebook.wRi_shonan Demo.shonan_solve
       320 [((301, 302), RotAvg.P120)]) 301 302
  = match RotAvg.camera_rotation Demo.shonan_solve
            [((301, 302), RotAvg.P120)] 302,
          RotAvg.camera_rotation Demo.shonan_solve
            [((301, 302), RotAvg.P120)] 301 with
    | Some a, Some b => Some (Notebook.between RotAvg.perm3_mul RotAvg.perm3_inv a b)
    | _, _ => None
    end.
Proof.
  assert (Hin : (301, 302) ∈ Notebook.subset_pair_indices [(301, 302); (1, 302)])
    by (vm_compute; left).
  split; [exact Hin |]. split; [lia |].
  apply (cell23_subset_pairs RotAvg.perm3_mul RotAvg.perm3_inv _ 320 _ _ _ _ Hin). lia.
Defined.

(** X6: cell 23's Python index [i - 300] wraps around for cameras just
    below the filtered range: with a run over at least 320 cameras, an
    index [i] in [280, 300) silently reads camera [i + 20], an index in
    [300, 320) reads camera [i], and any other index raises. *)
Theorem cell23_index_wraps {Rot3 : Type} (mul : Rot3 -> Rot3 -> Rot3) (inv : Rot3 -> Rot3)
    (solve : list ((nat * nat) * Rot3) -> option (nat -> Rot3))
    (N : nat) (es : list ((nat * nat) * Rot3)) (i1 i2 : nat) :
  320 <= N ->
  let cam i := if i <? 280 then None
               else if i <? 300 then RotAvg.camera_rotation solve es (i + 20)
               else if i <? 320 then RotAvg.camera_rotation solve es i
               else None in
  Notebook.cell23_i2Ri1_shonan mul inv (Notebook.wRi_shonan solve N es) i1 i2
    = match cam i2, cam i1 with
      | Some a, Some b => Some (Notebook.between mul inv a b)
      | _, _ => None
      end.
Proof.
  intros HN cam. unfold Notebook.cell23_i2Ri1_shonan, cam.
  rewrite !wRi_shonan_getitem by exact HN.
  destruct (i2 <? 280), (i2 <? 300), (i2 <? 320), (i1 <? 280), (i1 <? 300), (i1 <? 320);
    try reflexivity;
    destruct (RotAvg.camera_rotation solve es _); try reflexivity;
    destruct (RotAvg.camera_rotation solve es _); reflexivity.
Qed.

Lemma cell23_index_wraps_witness :
  320 <= 320 /\
  Notebook.cell23_i2Ri1_shonan RotAvg.perm3_mul RotAvg.perm3_inv
    (Notebook.wRi_shonan Demo.shonan_solve
       320 [((299, 319), RotAvg.P120)]) 319 299
  = (let cam i := if i <? 280 then None
                  else if i <? 300 then RotAvg.camera_rotation
                         Demo.shonan_solve
                         [((299, 319), RotAvg.P120)] (i + 20)
                  else if i <? 320 then RotAvg.camera_rotation
                         Demo.shonan_solve
                         [((299, 319), RotAvg.P120)] i
                  else None in
     match cam 299, cam 319 with
     | Some a, Some b => Some (Notebook.between RotAvg.perm3_mul RotAvg.perm3_inv a b)
     | _, _ => None
     end).
Proof.
  split; [lia |].
  apply (cell23_index_wraps RotAvg.perm3_mul RotAvg.perm3_inv _ 320). lia.
Defined.

Lemma camera_rotation_left_mul {Rot3 : Type} (mul : Rot3 -> Rot3 -> Rot3) (g : Rot3)
    (solve : list ((nat * nat) * Rot3) -> option (nat -> Rot3))
    (es : list ((nat * nat) * Rot3)) (i : nat) :
  RotAvg.camera_rotation (fun es => option_map (fun sol i => mul g (sol i)) (solve es)) es i
    = option_map (mul g) (RotAvg.camera_rotation solve es i).
Proof.
  unfold RotAvg.camera_rotation.
  destruct (list_find _ _) as [[? c] |]; [| reflexivity].
  destruct (solve _); reflexivity.
Qed.

Lemma wRi_shonan_left_mul {Rot3 : Type} (mul : Rot3 -> Rot3 -> Rot3) (g : Rot3)
    (solve : list ((nat * nat) * Rot3) -> option (nat -> Rot3))
    (N : nat) (es : list ((nat * nat) * Rot3)) :
  Notebook.wRi_shonan (fun es => option_map (fun sol i => mul g (sol i)) (solve es)) N es
    = map (option_map (mul g)) (Notebook.wRi_shonan solve N es).
Proof.
  unfold Notebook.wRi_shonan, Notebook.py_slice, RotAvg.run.
  rewrite <- firstn_map, <- skipn_map, map_map.
  f_equal. f_equal. apply map_ext. intros i. apply camera_rotation_left_mul.
Qed.

Lemma py_getitem_map {A B : Type} (f : A -> B) (l : list A) (z : Z) :
  Notebook.py_getitem (map f l) z = f <$> Notebook.py_getitem l z.
Proof.
  unfold Notebook.py_getitem. rewrite length_map.
  destruct (z <? 0)%Z; [destruct (_ <? 0)%Z; [reflexivity |] |]; apply lookup_map.
Qed.

(** X7: the relative rotations compared in cell 23 do not depend on the
    world frame of Shonan's output: if every camera rotation of the run is
    premultiplied by one rotation [g], [wRi_shonan[i2-300].between(wRi_shonan[i1-300])]
    is unchanged, for every pair, in a rotation group. *)
Theorem cell23_world_frame_invariant {Rot3 : Type}
    (mul : Rot3 -> Rot3 -> Rot3) (inv : Rot3 -> Rot3) (one : Rot3)
    (mul_assoc : forall a b c, mul a (mul b c) = mul (mul a b) c)
    (mul_one_l : forall a, mul one a = a)
    (mul_one_r : forall a, mul a one = a)
    (mul_inv_l : forall a, mul (inv a) a = one)
    (mul_inv_r : forall a, mul a (inv a) = one)
    (solve : list ((nat * nat) * Rot3) -> option (nat -> Rot3))
    (g : Rot3) (N : nat) (es : list ((nat * nat) * Rot3)) (i1 i2 : nat) :
  Notebook.cell23_i2Ri1_shonan mul inv
    (Notebook.wRi_shonan (fun es => option_map (fun sol i => mul g (sol i)) (solve es)) N es)
    i1 i2
  = Notebook.cell23_i2Ri1_shonan mul inv (Notebook.wRi_shonan solve N es) i1 i2.
Proof.
  unfold Notebook.cell23_i2Ri1_shonan.
  rewrite wRi_shonan_left_mul, !py_getitem_map.
  destruct (Notebook.py_getitem _ (Z.of_nat i2 - 300)) as [[a |] |]; [| reflexivity ..].
  destruct (Notebook.py_getitem _ (Z.of_nat i1 - 300)) as [[b |] |]; [| reflexivity ..].
  simpl. unfold Notebook.between.
  rewrite (inv_mul mul inv one mul_assoc mul_one_l mul_one_r mul_inv_l mul_inv_r).
  rewrite <- mul_assoc, (mul_assoc (inv g)), mul_inv_l, mul_one_l. reflexivity.
Qed.

Lemma cell23_world_frame_invariant_witness :
  (forall a b c, RotAvg.perm3_mul a (RotAvg.perm3_mul b c)
                 = RotAvg.perm3_mul (RotAvg.perm3_mul a b) c) /\
  (forall a, RotAvg.perm3_mul RotAvg.P012 a = a) /\
  (forall a, RotAvg.perm3_mul a RotAvg.P012 = a) /\
  (forall a, RotAvg.perm3_mul (RotAvg.perm3_inv a) a = RotAvg.P012) /\
  (forall a, RotAvg.perm3_mul a (RotAvg.perm3_inv a) = RotAvg.P012) /\
  Notebook.cell23_i2Ri1_shonan RotAvg.perm3_mul RotAvg.perm3_inv
    (Notebook.wRi_shonan
       (fun es => option_map (fun sol i => RotAvg.perm3_mul RotAvg.P201 (sol i))
                    (Demo.shonan_solve es))
       320 [((301, 302), RotAvg.P120)]) 301 302
  = Notebook.cell23_i2Ri1_shonan RotAvg.perm3_mul RotAvg.perm3_inv
      (Notebook.wRi_shonan Demo.shonan_solve
         320 [((301, 302), RotAvg.P120)]) 301 302.
Proof.
  assert (Hassoc : forall a b c, RotAvg.perm3_mul a (RotAvg.perm3_mul b c)
                                 = RotAvg.perm3_mul (RotAvg.perm3_mul a b) c)
    by (intros [] [] []; reflexivity).
  assert (Hl : forall a, RotAvg.perm3_mul RotAvg.P012 a = a) by (intros []; reflexivity).
  assert (Hr : forall a, RotAvg.perm3_mul a RotAvg.P012 = a) by (intros []; reflexivity).
  assert (Hil : forall a, RotAvg.perm3_mul (RotAvg.perm3_inv a) a = RotAvg.P012)
    by (intros []; reflexivity).
  assert (Hir : forall a, RotAvg.perm3_mul a (RotAvg.perm3_inv a) = RotAvg.P012)
    by (intros []; reflexivity).
  do 5 (split; [assumption |]).
  apply (cell23_world_frame_invariant RotAvg.perm3_mul RotAvg.perm3_inv RotAvg.P012
           Hassoc Hl Hr Hil Hir).
Defined.

(** Unfold the pose algebra of cells 6 and 7 down to its rational entries. *)
Ltac unfold_pose :=
  unfold Notebook.pose3_eq, Notebook.rot3_eq, Notebook.point3_eq,
    Notebook.pose3_compose, Notebook.rot3_mul, Notebook.rot3_rotate, Notebook.wTimu0,
    Notebook.rot3_of_columns, Notebook.rot3_transpose, Notebook.rot3_det,
    Notebook.rot3_identity;
  cbn [Notebook.r11 Notebook.r12 Notebook.r13 Notebook.r21 Notebook.r22 Notebook.r23
       Notebook.r31 Notebook.r32 Notebook.r33 Notebook.px Notebook.py Notebook.pz
       Notebook.rotation Notebook.translation].

(** X8: composing a pose with the hard-coded [wTimu0] of cell 6
    ([Pose3(Rot3(Point3(1,0,0), Point3(0,-1,0), Point3(0,0,-1)), 0)], gtsam's
    [Pose3 * Pose3]) keeps the first row of the rotation and the x
    coordinate of the translation and negates the other two rows and
    coordinates. *)
Theorem wTimu0_compose_flips (T : Notebook.Pose3) :
  let P := Notebook.pose3_compose Notebook.wTimu0 T in
  let R := Notebook.rotation T in
  let t := Notebook.translation T in
  Notebook.rot3_eq (Notebook.rotation P)
    {| Notebook.r11 := Notebook.r11 R; Notebook.r12 := Notebook.r12 R;
       Notebook.r13 := Notebook.r13 R;
       Notebook.r21 := - Notebook.r21 R; Notebook.r22 := - Notebook.r22 R;
       Notebook.r23 := - Notebook.r23 R;
       Notebook.r31 := - Notebook.r31 R; Notebook.r32 := - Notebook.r32 R;
       Notebook.r33 := - Notebook.r33 R |} /\
  Notebook.point3_eq (Notebook.translation P)
    {| Notebook.px := Notebook.px t; Notebook.py := - Notebook.py t;
       Notebook.pz := - Notebook.pz t |}.
Proof.
  destruct T as [[a b c d e f g h i] [x y z]].
  unfold_pose.
  repeat split; ring.
Qed.

(** X9: [wTimu0]'s rotation (built by gtsam's [Rot3] from the three
    columns) is orthonormal with determinant 1; composing with [wTimu0]
    twice gives back the pose, and composing once keeps [R^T R] and the
    determinant of the pose's rotation, so a valid pose stays valid. *)
Theorem wTimu0_proper_involution (T : Notebook.Pose3) :
  let W := Notebook.rotation Notebook.wTimu0 in
  let R := Notebook.rotation T in
  let R' := Notebook.rotation (Notebook.pose3_compose Notebook.wTimu0 T) in
  Notebook.rot3_eq (Notebook.rot3_mul (Notebook.rot3_transpose W) W) Notebook.rot3_identity /\
  (Notebook.rot3_det W == 1)%Q /\
  Notebook.pose3_eq
    (Notebook.pose3_compose Notebook.wTimu0 (Notebook.pose3_compose Notebook.wTimu0 T)) T /\
  Notebook.rot3_eq (Notebook.rot3_mul (Notebook.rot3_transpose R') R')
                   (Notebook.rot3_mul (Notebook.rot3_transpose R) R) /\
  (Notebook.rot3_det R' == Notebook.rot3_det R)%Q.
Proof.
  destruct T as [[a b c d e f g h i] [x y z]]. cbv zeta.
  unfold_pose.
  repeat split; ring.
Qed.

Lemma py_dict_set_new {V : Type} (d : list (nat * V)) (k : nat) (v : V) :
  k ∉ map fst d -> Notebook.py_dict_set d k v = d ++ [(k, v)].
Proof.
  induction d as [| [k' v'] d IH]; intros Hk; simpl; [reflexivity |].
  simpl in Hk. apply not_elem_of_cons in Hk as [Hne Hk].
  replace (Nat.eqb k k') with false by (symmetry; apply Nat.eqb_neq; exact Hne).
  rewrite IH by exact Hk. reflexivity.
Qed.

Lemma wTimu_loop_None (w : gmap nat Notebook.Pose3) (idx : list nat)
    (acc : list (nat * Notebook.Pose3)) :
  Notebook.wTimu_loop w idx acc = None <-> exists i, i ∈ idx /\ w !! i = None.
Proof.
  revert acc. induction idx as [| i idx IH]; intros acc; simpl.
  - split; [discriminate |]. intros (j & Hj & _). apply not_elem_of_nil in Hj. contradiction.
  - destruct (w !! i) as [T |] eqn:Hw.
    + rewrite IH. split.
      * intros (j & Hj & Hn). exists j. split; [right; exact Hj | exact Hn].
      * intros (j & Hj & Hn). apply elem_of_cons in Hj as [-> | Hj]; [congruence |].
        exists j. split; assumption.
    + split; [intros _; exists i; split; [left | exact Hw] | reflexivity].
Qed.

Lemma wTimu_loop_Some (w : gmap nat Notebook.Pose3) (idx : list nat)
    (acc : list (nat * Notebook.Pose3)) :
  NoDup idx -> (forall i, i ∈ idx -> i ∉ map fst acc) ->
  forall r, Notebook.wTimu_loop w idx acc = Some r ->
  length r = length acc + length idx /\
  (forall k, k < length acc -> r !! k = acc !! k) /\
  (forall k i, idx !! k = Some i -> exists T, w !! i = Some T /\
     r !! (length acc + k) = Some (i, Notebook.pose3_compose Notebook.wTimu0 T)).
Proof.
  revert acc. induction idx as [| i idx IH]; intros acc Hnd Hfresh r; simpl.
  - intros [= <-]. split; [lia |]. split; [reflexivity |].
    intros k j Hk. rewrite lookup_nil in Hk. discriminate.
  - destruct (w !! i) as [T |] eqn:Hw; [| discriminate]. intros Hrun.
    apply NoDup_cons in Hnd as [Hi Hnd].
    rewrite py_dict_set_new in Hrun by (apply Hfresh; left).
    set (acc' := acc ++ [(i, Notebook.pose3_compose Notebook.wTimu0 T)]) in Hrun.
    assert (Hlen' : length acc' = S (length acc)) by (unfold acc'; rewrite length_app; simpl; lia).
    destruct (IH acc' Hnd) with (r := r) as (Hlen & Hpre & Hpost); [| exact Hrun |].
    { intros j Hj. unfold acc'. rewrite map_app, not_elem_of_app. split.
      - apply Hfresh. right. exact Hj.
      - simpl. apply not_elem_of_cons. split; [intros ->; contradiction | apply not_elem_of_nil]. }
    split; [rewrite Hlen, Hlen'; lia |]. split.
    + intros k Hk. rewrite Hpre by lia. unfold acc'. apply lookup_app_l. exact Hk.
    + intros [| k] j Hk; simpl in Hk.
      * injection Hk as <-. exists T. split; [exact Hw |].
        rewrite Nat.add_0_r, Hpre by lia. unfold acc'.
        rewrite lookup_app_r, Nat.sub_diag by lia. reflexivity.
      * destruct (Hpost k j Hk) as (T' & HT' & Hr). exists T'. split; [exact HT' |].
        replace (length acc + S k) with (length acc' + k) by lia. exact Hr.
Qed.

(** X10: cell 7's comprehension over [rig_indices = range(0, 250)]
    fails (KeyError) exactly when some index below 250 is missing from
    [loader._w_T_imu]; otherwise [translations] has 250 rows, row [i] being
    camera [i]'s IMU translation with its y and z negated. *)
Theorem cell7_translations_spec (w_T_imu : gmap nat Notebook.Pose3) :
  (Notebook.cell7_translations w_T_imu Notebook.rig_indices = None <->
   exists i, i < 250 /\ w_T_imu !! i = None) /\
  forall translations,
    Notebook.cell7_translations w_T_imu Notebook.rig_indices = Some translations ->
    length translations = 250 /\
    forall i, i < 250 -> exists T p,
      w_T_imu !! i = Some T /\ translations !! i = Some p /\
      Notebook.point3_eq p
        {| Notebook.px := Notebook.px (Notebook.translation T);
           Notebook.py := - Notebook.py (Notebook.translation T);
           Notebook.pz := - Notebook.pz (Notebook.translation T) |}.
Proof.
  unfold Notebook.cell7_translations, Notebook.wTimu_comprehension.
  split.
  - destruct (Notebook.wTimu_loop w_T_imu Notebook.rig_indices []) as [r |] eqn:E.
    + split; [discriminate |]. intros (i & Hi & Hn).
      assert (Hnone : Notebook.wTimu_loop w_T_imu Notebook.rig_indices [] = None).
      { apply wTimu_loop_None. exists i. split; [apply elem_of_seq; lia | exact Hn]. }
      congruence.
    + split; [intros _ | reflexivity].
      apply wTimu_loop_None in E as (i & Hi & Hn). apply elem_of_seq in Hi.
      exists i. split; [lia | exact Hn].
  - intros ts.
    destruct (Notebook.wTimu_loop w_T_imu Notebook.rig_indices []) as [r |] eqn:E;
      [| discriminate].
    intros [= <-].
    destruct (wTimu_loop_Some w_T_imu Notebook.rig_indices [] (NoDup_seq 0 250)
                (fun i _ => not_elem_of_nil i) r E) as (Hlen & _ & Hpost).
    split; [rewrite length_map, Hlen; reflexivity |].
    intros i Hi.
    destruct (Hpost i i) as (T & HT & Hr);
      [unfold Notebook.rig_indices; rewrite lookup_seq_lt by lia; reflexivity |].
    simpl in Hr.
    exists T, (Notebook.translation (Notebook.pose3_compose Notebook.wTimu0 T)).
    split; [exact HT |]. split; [rewrite lookup_map, Hr; reflexivity |].
    destruct T as [[a b c d e f g h k] [x y z]].
    unfold_pose.
    repeat split; ring.
Qed.
